(** * LLM-PDF-Q-A: the hybrid retrieval engine

    A shallow embedding of the TypeScript sources:
    - [VectorStore] (vector.ts): the embedding store with its linear-scan
      cosine ranking and its JSON persistence;
    - [N3]: the quad store the program takes from the n3 package;
    - [Prompts] (prompts.ts): the bounded retry loop around every JSON
      oracle request, and the context packing of [llm_do_question_answer];
    - [Query] (index.ts): the seed / expand / terminate traversal of
      [queryPDF] and the hand-off of the visited chunks, and the entity and
      triple loops of [indexPDF];
    - [Rdf] (index.ts): the line pattern of [loadRDFStoreFromText];
    - [Citations], [Chunking] (index.ts, pdf.ts): [extractChunkIndices] and
      [chunkPDF];
    - [InitialPass] (pdf.ts): the batches of [llm_do_initial_pass];
    - [Indexing] (index.ts): the loop of [indexPDF] over the chunks.

    JavaScript numbers are IEEE binary64 values, embedded as Rocq's primitive
    floats; a [throw] is an explicit [Throw] outcome. *)

From Stdlib Require Import List Bool Arith ZArith Lia String Ascii.
From Stdlib Require Import Permutation Sorted.
From Stdlib Require Import Floats.PrimFloat Floats.SpecFloat Floats.FloatOps.
From Stdlib Require Import Floats.FloatAxioms.
From Stdlib Require Import DecimalString DecimalNat.
Import ListNotations.

Set Implicit Arguments.
Open Scope string_scope.
Open Scope list_scope.

(** ** Exceptions *)

(** The error values the sources throw or catch.  [SystemError] is what
    [fs.readFile] rejects with: the only errors that carry a [code]. *)
Inductive JSError : Type :=
| Error (message : string)
| SyntaxError (message : string)
| TypeError (message : string)
| SystemError (code : string) (message : string).

Definition message (e : JSError) : string :=
  match e with
  | Error m | SyntaxError m | TypeError m | SystemError _ m => m
  end.

Definition code (e : JSError) : option string :=
  match e with
  | SystemError c _ => Some c
  | _ => None
  end.

(** [error instanceof SyntaxError] *)
Definition instanceof_SyntaxError (e : JSError) : bool :=
  match e with
  | SyntaxError _ => true
  | _ => false
  end.

(** The completion of a call: a value, or a thrown error. *)
Inductive result (A : Type) : Type :=
| Return (a : A)
| Throw (e : JSError).

Arguments Return {A} a.
Arguments Throw {A} e.

Definition bind {A B : Type} (m : result A) (k : A -> result B) : result B :=
  match m with
  | Return a => k a
  | Throw e => Throw e
  end.

Notation "x <- m ;; k" := (bind m (fun x => k))
  (at level 61, m at next level, right associativity).

(** ** Array.prototype.sort and Array.prototype.slice *)

Section ArraySort.
Variable A : Type.

(** The comparator of a [sort] call, a number-valued function.  [sort]
    places [y] before [x] when [compareFn x y > 0]; a zero or NaN value
    leaves the two in their order (the sort is stable). *)
Variable compareFn : A -> A -> float.

Definition sorts_after (x y : A) : bool := (0 <? compareFn x y)%float.

Fixpoint insert_sorted (x : A) (l : list A) : list A :=
  match l with
  | [] => [x]
  | y :: l' => if sorts_after x y then y :: insert_sorted x l' else x :: l
  end.

(** For a comparator that orders the elements consistently the language
    fixes the outcome of [sort]: the one stable sorted arrangement.  Stable
    insertion computes it. *)
Definition sort (l : list A) : list A := fold_right insert_sorted [] l.

(** Neither sorts after the other: [sort] keeps such a pair in its order. *)
Definition tied (x y : A) : bool :=
  (negb (sorts_after x y) && negb (sorts_after y x))%bool.

(** The comparator orders the elements of [l] consistently: two elements
    never sort after each other, and whatever sorts after [z] sorts after
    [y] or has [y] sort after [z].  A comparator of the shape
    [b.key - a.key] can fail this when a key is NaN, which compares as a tie
    with every other key. *)
Definition consistent_comparator (l : list A) : bool :=
  forallb (fun x =>
    forallb (fun y =>
      implb (sorts_after x y) (negb (sorts_after y x))
      && forallb (fun z =>
           implb (sorts_after x z) (sorts_after x y || sorts_after y z)) l) l) l.

(** [l.slice(0, end)], for an integer [end]: a negative [end] counts from
    the end of the array. *)
Definition slice0 (l : list A) (end_ : Z) : list A :=
  if (end_ <? 0)%Z
  then firstn (Z.to_nat (Z.max (Z.of_nat (List.length l) + end_) 0)) l
  else firstn (Z.to_nat end_) l.
End ArraySort.

(** ** vector.ts *)

Module VectorStore.

Record VectorEntry : Type := { text : string; embedding : list float }.

(** [Similarity = { text, similarity }]; the first field is named
    [sim_text] here, [text] being taken by [VectorEntry]. *)
Record Similarity : Type := { sim_text : string; similarity : float }.

(** The private field [entries]. *)
Definition t : Type := list VectorEntry.

Definition contains (this : t) (text0 : string) : bool :=
  existsb (fun entry => text entry =? text0) this.

Definition store (this : t) (text0 : string) (embedding0 : list float) : t :=
  if contains this text0 then this
  else this ++ [ {| text := text0; embedding := embedding0 |} ].

(** [vec1.reduce((sum, val, i) => sum + val * vec2[i], 0)], run once the
    lengths are known to agree. *)
Definition dotProduct (vec1 vec2 : list float) : float :=
  fold_left (fun sum p => (sum + fst p * snd p)%float) (combine vec1 vec2) 0%float.

Definition magnitude (vec : list float) : float :=
  sqrt (fold_left (fun sum val => (sum + val * val)%float) vec 0%float).

(** The body of [cosineSimilarity] below its length guard. *)
Definition cosine (vec1 vec2 : list float) : float :=
  let magnitude1 := magnitude vec1 in
  let magnitude2 := magnitude vec2 in
  if ((magnitude1 =? 0)%float || (magnitude2 =? 0)%float)%bool then 0%float
  else (dotProduct vec1 vec2 / (magnitude1 * magnitude2))%float.

Definition dimension_mismatch : JSError :=
  Error "Vectors must have the same length".

Definition cosineSimilarity (vec1 vec2 : list float) : result float :=
  if negb (List.length vec1 =? List.length vec2)%nat then Throw dimension_mismatch
  else Return (cosine vec1 vec2).

(** The [for (const entry of this.entries)] loop of [get_most_similar];
    [similarities] is the array being pushed to. *)
Fixpoint collect_similarities (entries : list VectorEntry) (text0 : string)
    (embedding0 : list float) (similarities : list Similarity)
    : result (list Similarity) :=
  match entries with
  | [] => Return similarities
  | entry :: rest =>
      if text entry =? text0 then
        collect_similarities rest text0 embedding0 similarities
      else
        cos <- cosineSimilarity (embedding entry) embedding0 ;;
        collect_similarities rest text0 embedding0
          (similarities ++ [ {| sim_text := text entry; similarity := cos |} ])
  end.

(** [(a, b) => b.similarity - a.similarity] *)
Definition by_similarity_desc (a b : Similarity) : float :=
  (similarity b - similarity a)%float.

Definition get_most_similar (this : t) (text0 : string)
    (embedding0 : list float) (max_results : Z) : result (list Similarity) :=
  if (List.length this =? 0)%nat then Return []
  else
    similarities <- collect_similarities this text0 embedding0 [] ;;
    Return (slice0 (sort by_similarity_desc similarities) max_results).

(** The entries a query for [text0] looks at: all but those stored under
    [text0] itself, in insertion order. *)
Definition considered (this : t) (text0 : string) : list VectorEntry :=
  filter (fun entry => negb (text entry =? text0)) this.

(** Their scores against [embedding0], in the same order. *)
Definition candidates (this : t) (text0 : string) (embedding0 : list float)
    : list Similarity :=
  map (fun entry =>
         {| sim_text := text entry;
            similarity := cosine (embedding entry) embedding0 |})
      (considered this text0).

Definition same_dimension (embedding0 : list float) (entry : VectorEntry) : bool :=
  (List.length (embedding entry) =? List.length embedding0)%nat.

(** The number of entries stored under [text0]. *)
Definition count_text (this : t) (text0 : string) : nat :=
  List.length (filter (fun entry => text entry =? text0) this).

Definition find (this : t) (text0 : string) : option VectorEntry :=
  List.find (fun entry => text entry =? text0) this.

Definition getEmbedding (this : t) (text0 : string) : option (list float) :=
  match find this text0 with
  | Some entry => Some (embedding entry)
  | None => None
  end.

(** *** Persistence: [load] *)

(** What [JSON.parse] produces. An object lists each key once. *)
#[warnings="-register-all"]
Inductive JSValue : Type :=
| JNull
| JBool (b : bool)
| JNumber (n : float)
| JString (s : string)
| JArray (elements : list JSValue)
| JObject (properties : list (string * JSValue)).

(** What a property read [v.name] evaluates to: [undefined], a value, or a
    method found on the prototype. *)
Inductive Property : Type :=
| Undefined
| Value (v : JSValue)
| Method.

Fixpoint lookup (name : string) (properties : list (string * JSValue))
    : Property :=
  match properties with
  | [] => Undefined
  | (key, v) :: rest => if key =? name then Value v else lookup name rest
  end.

(** [v.name] for the three names [load] reads ([entries], [text],
    [embedding]): reading a property of [null] throws (the message is
    V8's); an array answers [entries] with [Array.prototype.entries];
    the prototypes carry none of the other names. *)
Definition get (v : JSValue) (name : string) : result Property :=
  match v with
  | JNull =>
      Throw (TypeError
        (String.append "Cannot read properties of null (reading '"
           (String.append name "')")))
  | JObject properties => Return (lookup name properties)
  | JArray _ => Return (if name =? "entries" then Method else Undefined)
  | _ => Return Undefined
  end.

(** ToBoolean *)
Definition truthy (p : Property) : bool :=
  match p with
  | Undefined => false
  | Method => true
  | Value JNull => false
  | Value (JBool b) => b
  | Value (JNumber n) => negb ((n =? 0)%float || negb (n =? n)%float)
  | Value (JString s) => negb (s =? "")
  | Value (JArray _) | Value (JObject _) => true
  end.

Definition isArray (p : Property) : bool :=
  match p with
  | Value (JArray _) => true
  | _ => false
  end.

Definition invalid_file : JSError := Error "Invalid vector store file format".
Definition invalid_entry : JSError :=
  Error "Invalid entry format in vector store file".

(** The body of the validation loop, for one entry. *)
Definition validate_entry (entry : JSValue) : result unit :=
  text_ <- get entry "text" ;;
  if negb (truthy text_) then Throw invalid_entry
  else
    embedding_ <- get entry "embedding" ;;
    if negb (isArray embedding_) then Throw invalid_entry else Return tt.

Fixpoint validate_entries (entries : list JSValue) : result unit :=
  match entries with
  | [] => Return tt
  | entry :: rest => _ <- validate_entry entry ;; validate_entries rest
  end.

(** The [try] block of [load] after [readFile] and [JSON.parse]: the value
    it is about to assign to [this.entries]. *)
Definition load_try (parsed : JSValue) : result (list JSValue) :=
  entries_ <- get parsed "entries" ;;
  if (negb (truthy entries_) || negb (isArray entries_))%bool
  then Throw invalid_file
  else
    match entries_ with
    | Value (JArray entries) =>
        _ <- validate_entries entries ;; Return entries
    | _ => Throw invalid_file
    end.

(** [load].  [file] is the outcome of [fs.readFile] followed by
    [JSON.parse]: [Throw (SystemError "ENOENT" _)] when there is no such
    file, another [SystemError] when the read fails otherwise, a
    [SyntaxError] when the text is not JSON, else the parsed value.
    [this.entries = parsed.entries] stores the parsed array as it is, so the
    entries are kept as values here; [entry_value] gives the value of a
    typed entry.  The outcome is the completion and the entries after the
    call. *)
Definition load (file : result JSValue) (this : list JSValue)
    : result unit * list JSValue :=
  match (parsed <- file ;; load_try parsed) with
  | Return entries => (Return tt, entries)
  | Throw error =>
      match code error with
      | Some "ENOENT" => (Return tt, [])
      | _ =>
          (Throw (Error (String.append "Failed to load vector store: "
                           (message error))), this)
      end
  end.

(** The conditions on a persisted file: it is an object with an [entries]
    array, and every entry is an object with a non-empty [text] (one that is
    not [undefined], [null], the empty string or another falsy value) and an
    array for [embedding]. *)
Definition entries_array (parsed : JSValue) : option (list JSValue) :=
  match parsed with
  | JObject properties =>
      match lookup "entries" properties with
      | Value (JArray entries) => Some entries
      | _ => None
      end
  | _ => None
  end.

Definition well_formed_entry (entry : JSValue) : bool :=
  match entry with
  | JObject properties =>
      (truthy (lookup "text" properties)
       && isArray (lookup "embedding" properties))%bool
  | _ => false
  end.

Definition well_formed (parsed : JSValue) : bool :=
  match entries_array parsed with
  | Some entries => forallb well_formed_entry entries
  | None => false
  end.

Definition load_failure (reason : string) : JSError :=
  Error (String.append "Failed to load vector store: " reason).

Definition entry_value (entry : VectorEntry) : JSValue :=
  JObject [ ("text", JString (text entry));
            ("embedding", JArray (map JNumber (embedding entry))) ].

(** *** [calcSimilarity] *)

Definition dquote : string := String "034"%char EmptyString.

(** [`Text "${text}" not found in store`] *)
Definition not_found (text0 : string) : JSError :=
  Error (String.append "Text "
           (String.append dquote
              (String.append text0
                 (String.append dquote " not found in store")))).

Definition calcSimilarity (this : t) (text1 text2 : string) : result float :=
  let entry1 := find this text1 in
  let entry2 := find this text2 in
  match entry1 with
  | None => Throw (not_found text1)
  | Some entry1 =>
      match entry2 with
      | None => Throw (not_found text2)
      | Some entry2 => cosineSimilarity (embedding entry1) (embedding entry2)
      end
  end.

(** A run of [store] calls, one per pair, in order. *)
Definition store_all (this : t) (writes : list (string * list float)) : t :=
  fold_left (fun this write => store this (fst write) (snd write)) writes this.

(** [x === 0]: both zeros, and nothing else. *)
Definition is_zero (x : float) : bool := (x =? 0)%float.

(** *** Persistence: [save] *)

Definition is_finite (n : float) : bool := (abs n <? infinity)%float.

(** What [JSON.parse] reads back from the text [JSON.stringify] writes for
    a number: the number itself when it is finite, with the negative zero
    written as [0], and [null] for NaN and the infinities. *)
Definition persisted_number (n : float) : JSValue :=
  if (n =? 0)%float then JNumber 0%float
  else if is_finite n then JNumber n
  else JNull.

Definition persisted_entry (entry : VectorEntry) : JSValue :=
  JObject [ ("text", JString (text entry));
            ("embedding", JArray (map persisted_number (embedding entry))) ].

(** What [JSON.parse] reads back from the file [save] writes:
    [JSON.stringify({ entries: this.entries }, null, 2)]. *)
Definition saved (this : t) : JSValue :=
  JObject [ ("entries", JArray (map persisted_entry this)) ].

(** [save]; [written] is the completion of [fs.writeFile]. *)
Definition save (this : t) (written : result unit) : result unit :=
  match written with
  | Return _ => Return tt
  | Throw error =>
      Throw (Error (String.append "Failed to save vector store: "
                      (message error)))
  end.

(** A number that [JSON] keeps as it is: finite and not the negative zero. *)
Definition kept_by_JSON (n : float) : bool :=
  (is_finite n && negb ((n =? 0) && (1 / n <? 0)))%bool%float.

End VectorStore.

(** ** The quad store *)

Module N3.

(** A quad as the program builds it: named nodes for subject, predicate and
    graph, an [@en] literal for the object; each term is read back through
    its [value]. *)
Record Quad : Type :=
  { subject : string; predicate : string; object : string; graph : string }.

(** The [Store] class of the n3 package, whose code is not part of the
    sources.  The model follows the package's contract: a store is a set of
    quads, kept here in the order in which they were first added. *)
Definition Store : Type := list Quad.

(** [quad.equals(other)] for quads built the way the program builds them:
    the same subject, predicate, object and graph. *)
Definition same_quad (q1 q2 : Quad) : bool :=
  ((subject q1 =? subject q2) && (predicate q1 =? predicate q2)
   && (object q1 =? object q2) && (graph q1 =? graph q2))%bool.

(** [store.has(q)] *)
Definition has (this : Store) (q : Quad) : bool :=
  existsb (same_quad q) this.

(** [addQuad] of the n3 package: a quad that is in the store already is not
    added a second time. *)
Definition addQuad (this : Store) (q : Quad) : Store :=
  if has this q then this else this ++ [q].

Definition bound (term : option string) (v : string) : bool :=
  match term with
  | None => true
  | Some s => s =? v
  end.

(** Modelled from the spec: [match] of the n3 package ("each term
    optionally bound; unbound terms act as wildcards"), called with
    subject, predicate and object; the graph is left unbound. *)
Definition match_ (this : Store) (s p o : option string) : list Quad :=
  filter (fun q => bound s (subject q) && bound p (predicate q)
                   && bound o (object q))%bool this.

(** The number of entries of the store that are the quad [q]. *)
Definition count (this : Store) (q : Quad) : nat :=
  List.length (filter (same_quad q) this).

End N3.

(** ** Strings and numbers of the runtime

    Strings are sequences of 8-bit characters: on ASCII text their lengths
    and their splitting are JavaScript's. *)

Definition newline : string := String "010"%char EmptyString.

(** [s.split(sep)] for a one-character separator. *)
Fixpoint split_from (sep : ascii) (s : string) (piece : string) : list string :=
  match s with
  | EmptyString => [piece]
  | String c s' =>
      if Ascii.eqb c sep then piece :: split_from sep s' EmptyString
      else split_from sep s' (String.append piece (String c EmptyString))
  end.

Definition split (s : string) (sep : ascii) : list string :=
  split_from sep s EmptyString.

(** An integer-valued number; [None] is NaN. *)
Definition JSInt : Type := option Z.

Definition is_whitespace (c : ascii) : bool :=
  let n := nat_of_ascii c in
  ((n =? 9) || (n =? 10) || (n =? 11) || (n =? 12) || (n =? 13) || (n =? 32))%nat.

Fixpoint trim_start (s : string) : string :=
  match s with
  | String c s' => if is_whitespace c then trim_start s' else s
  | EmptyString => s
  end.

Definition digit_value (c : ascii) : option Z :=
  let n := nat_of_ascii c in
  if ((48 <=? n) && (n <=? 57))%nat then Some (Z.of_nat (n - 48))
  else if ((97 <=? n) && (n <=? 122))%nat then Some (Z.of_nat (n - 87))
  else if ((65 <=? n) && (n <=? 90))%nat then Some (Z.of_nat (n - 55))
  else None.

(** The longest prefix of [s] made of digits of [radix], read as a number. *)
Fixpoint read_digits (radix : Z) (s : string) (acc : JSInt) : JSInt :=
  match s with
  | EmptyString => acc
  | String c s' =>
      match digit_value c with
      | Some d =>
          if (d <? radix)%Z
          then read_digits radix s'
                 (Some (match acc with Some a => a * radix + d | None => d end)%Z)
          else acc
      | None => acc
      end
  end.

Definition parseInt_string (input : string) : JSInt :=
  let s := trim_start input in
  let (negative, s) :=
    match s with
    | String "-"%char s' => (true, s')
    | String "+"%char s' => (false, s')
    | _ => (false, s)
    end in
  let (radix, s) :=
    match s with
    | String "0"%char (String "x"%char s') => (16%Z, s')
    | String "0"%char (String "X"%char s') => (16%Z, s')
    | _ => (10%Z, s)
    end in
  match read_digits radix s None with
  | Some n => Some (if negative then (- n)%Z else n)
  | None => None
  end.

(** [parseInt(x)] with no radix, on a string or on [undefined] (which is
    first turned into the string "undefined").  Whitespace is the ASCII
    part of the language's; the value is exact, where a number beyond 2^53
    would be rounded. *)
Definition parseInt (input : option string) : JSInt :=
  match input with
  | Some s => parseInt_string s
  | None => parseInt_string "undefined"
  end.

(** How a template literal prints a number. *)
Definition show_number (n : JSInt) : string :=
  match n with
  | Some z => NilZero.string_of_int (Z.to_int z)
  | None => "NaN"
  end.

(** [array[i]] for a number [i]: [undefined] out of range. *)
Definition index_array {A : Type} (array : list A) (i : JSInt) : option A :=
  match i with
  | Some z => if (z <? 0)%Z then None else nth_error array (Z.to_nat z)
  | None => None
  end.

(** ** prompts.ts *)

Module Prompts.

Record GraphNode : Type :=
  { subject : string; predicate : string; value : string; chunk : string }.

(** *** The retry loop of the JSON oracle requests

    [chooseNextGraphNode], [extractEntities], [extractRDFTriples] and
    [analyzeChunk] wrap their request in the same loop; they differ in the
    prompt, in the text parsed when the reply is empty and in the message
    of the final [throw]. *)
Section OracleRequest.
Variable A : Type.

(** The chat service: the completion of the [n]-th request made to it
    (the reply's content, [None] when it is [null]). *)
Variable create : nat -> result (option string).
Variable JSON_parse : string -> result A.
Variable fallback : string.
Variable exhausted : string.

(** [content || fallback] *)
Definition content_or (content : option string) : string :=
  match content with
  | Some s => if s =? "" then fallback else s
  | None => fallback
  end.

(** The [try] block; [calls] counts the requests made before it. *)
Definition try_request (calls : nat) : result A :=
  content <- create calls ;; JSON_parse (content_or content).

Definition parse_failure : JSError :=
  Error "Failed to parse JSON response after 3 attempts".

(** [while (attempts < 3) { try ... catch ... }] and the [throw] below
    it.  The outcome is the completion with the count of requests made
    so far; [None] stands for a loop still running when [fuel] is
    spent. *)
Fixpoint attempts_loop (fuel attempts calls : nat)
    : option (result A * nat) :=
  match fuel with
  | 0 => None
  | S fuel' =>
      if (attempts <? 3)%nat then
        match try_request calls with
        | Return entities => Some (Return entities, S calls)
        | Throw error =>
            if instanceof_SyntaxError error then
              let attempts := S attempts in
              if (attempts =? 3)%nat then Some (Throw parse_failure, S calls)
              else attempts_loop fuel' attempts (S calls)
            else Some (Throw error, S calls)
        end
      else Some (Throw (Error exhausted), calls)
  end.

(** The function body: [let attempts = 0] and the loop. *)
Definition oracle_request (fuel calls : nat) : option (result A * nat) :=
  attempts_loop fuel 0 calls.
End OracleRequest.

Definition chooseNextGraphNode create (JSON_parse : string -> result (list GraphNode)) :=
  oracle_request create JSON_parse "[]" "Failed to extract entities".

Definition extractEntities create (JSON_parse : string -> result (list string)) :=
  oracle_request create JSON_parse "[]" "Failed to extract entities".

(** *** The context of [llm_do_question_answer] *)

(** [QAInput]; [qa_chunk] is its field [chunk].  [queryPDF] fills it with
    [chunks[i]], which is [undefined] ([None]) for an [i] out of range, and
    [index] with the outcome of [parseInt]. *)
Record QAInput : Type := { qa_chunk : option string; index : JSInt }.

Definition labelled (index0 : JSInt) (chunk0 : string) : string :=
  String.append "[Chunk "
    (String.append (show_number index0)
       (String.append "]:"
          (String.append newline
             (String.append chunk0 (String.append newline newline))))).

(** The [for (const analysis of qaInput)] loop: [context] and
    [chunkIndices] are the two variables it grows; the [else] branch is the
    [break]. *)
Fixpoint build_context (qaInput : list QAInput) (max_characters : Z)
    (context : string) (chunkIndices : list JSInt)
    : result (string * list JSInt) :=
  match qaInput with
  | [] => Return (context, chunkIndices)
  | analysis :: rest =>
      match qa_chunk analysis with
      | None =>
          Throw (TypeError
            "Cannot read properties of undefined (reading 'length')")
      | Some chunk0 =>
          if (Z.of_nat (String.length context)
              + Z.of_nat (String.length chunk0) <=? max_characters)%Z
          then build_context rest max_characters
                 (String.append context (labelled (index analysis) chunk0))
                 (chunkIndices ++ [index analysis])
          else Return (context, chunkIndices)
      end
  end.

(** A well-typed [QAInput]: a chunk that is a string, with its index. *)
Definition qa (item : string * JSInt) : QAInput :=
  {| qa_chunk := Some (fst item); index := snd item |}.

(** [context] followed by the given chunks, each whole under its label. *)
Definition with_chunks (context : string) (items : list (string * JSInt)) : string :=
  fold_left (fun context item => String.append context (labelled (snd item) (fst item)))
    items context.

(** The characters of the chunks themselves, labels left out. *)
Definition chunk_characters (items : list (string * JSInt)) : nat :=
  list_sum (map (fun item => String.length (fst item)) items).

Definition question_context (qaInput : list QAInput) (max_characters : Z)
    : result (string * list JSInt) :=
  build_context qaInput max_characters EmptyString [].

End Prompts.

(** ** index.ts: queryPDF *)

Module Query.
Import Prompts.

(** The record [queryPDF] writes for a quad: each term's [value]. *)
Definition toGraphNode (n : N3.Quad) : GraphNode :=
  {| subject := N3.subject n; predicate := N3.predicate n;
     value := N3.object n; chunk := N3.graph n |}.

(** The callback of [visitedNodes.some]. *)
Definition same_fact (v : GraphNode) (n : N3.Quad) : bool :=
  ((subject v =? N3.subject n) && (predicate v =? N3.predicate n)
   && (value v =? N3.object n) && (chunk v =? N3.graph n))%bool.

(** [for (const n of queryNodes)]: [tmp] and [visitedNodes] are pushed to
    together. *)
Fixpoint visit_new (queryNodes : list N3.Quad) (tmp visitedNodes : list GraphNode)
    : list GraphNode * list GraphNode :=
  match queryNodes with
  | [] => (tmp, visitedNodes)
  | n :: rest =>
      if negb (existsb (fun v => same_fact v n) visitedNodes) then
        visit_new rest (tmp ++ [toGraphNode n]) (visitedNodes ++ [toGraphNode n])
      else visit_new rest tmp visitedNodes
  end.

Section Traversal.
(** [rdfStore.match(subject, predicate, object)] on the loaded store,
    which no step of the query changes; [None] is a [null] term. *)
Variable rdfStore_match :
  option string -> option string -> option string -> list N3.Quad.

(** The relevance oracle: the completion of [chooseNextGraphNode] when
    called at the given depth on the given frontier. *)
Variable chooseNextGraphNode : nat -> list GraphNode -> result (list GraphNode).

(** The seeding loop of the [embed_question] strategy. *)
Definition seed (similarities : list VectorStore.Similarity) : list GraphNode :=
  flat_map
    (fun similarity =>
       map toGraphNode
         (rdfStore_match (Some (VectorStore.sim_text similarity)) None None))
    similarities.

(** [for (const node of nextNodes)] *)
Fixpoint expand (nextNodes : list GraphNode) (allNodes visitedNodes : list GraphNode)
    : list GraphNode * list GraphNode :=
  match nextNodes with
  | [] => (allNodes, visitedNodes)
  | node :: rest =>
      let queryNodes1 := rdfStore_match None None (Some (value node)) in
      let queryNodes2 := rdfStore_match (Some (subject node)) None None in
      let queryNodes := queryNodes1 ++ queryNodes2 in
      let (tmp, visitedNodes) := visit_new queryNodes [] visitedNodes in
      expand rest (allNodes ++ tmp) visitedNodes
  end.

(** The variables of the [while (true)] loop. *)
Record Loop : Type :=
  { depth : nat; allNodes : list GraphNode; visitedNodes : list GraphNode }.

Inductive Iteration : Type :=
| Break
| Continue (next : Loop)
| Abort (error : JSError).

(** One pass through the loop body. *)
Definition iteration (st : Loop) : Iteration :=
  if (2 <? depth st)%nat then Break
  else if (List.length (allNodes st) =? 0)%nat then Break
  else
    match chooseNextGraphNode (depth st) (allNodes st) with
    | Throw error => Abort error
    | Return nextNodes =>
        let (allNodes', visitedNodes') := expand nextNodes [] (visitedNodes st) in
        Continue {| depth := S (depth st); allNodes := allNodes';
                    visitedNodes := visitedNodes' |}
    end.

(** The loop: the variables at the [break], or the error that left it;
    [None] when [fuel] passes do not reach either. *)
Fixpoint while_true (fuel : nat) (st : Loop) : option (result Loop) :=
  match fuel with
  | 0 => None
  | S fuel' =>
      match iteration st with
      | Break => Some (Return st)
      | Continue next => while_true fuel' next
      | Abort error => Some (Throw error)
      end
  end.

(** [n.chunk.split('_')[1]] *)
Definition chunk_index (n : GraphNode) : option string :=
  nth_error (split (chunk n) "_"%char) 1.

Definition chunkIndices (visited : list GraphNode) : list (option string) :=
  map chunk_index visited.

(** The [QAInput] array handed to [llm_do_question_answer]. *)
Definition qaInput (chunks : list string) (visited : list GraphNode)
    : list QAInput :=
  map (fun index0 =>
         {| qa_chunk := index_array chunks (parseInt index0);
            index := parseInt index0 |})
      (chunkIndices visited).

(** [queryPDF] up to the call of [llm_do_question_answer]: the completion
    of [getEmbedding(question)] is [embedding], the chunks of the
    document are [chunks]. *)
Definition retrieval (vectorStore : VectorStore.t) (question : string)
    (embedding : result (list float)) (chunks : list string) (fuel : nat)
    : option (result (list QAInput)) :=
  match
    (embedding0 <- embedding ;;
     VectorStore.get_most_similar vectorStore question embedding0 10)
  with
  | Throw error => Some (Throw error)
  | Return similarities =>
      match
        while_true fuel
          {| depth := 0; allNodes := seed similarities; visitedNodes := [] |}
      with
      | None => None
      | Some (Throw error) => Some (Throw error)
      | Some (Return st) => Some (Return (qaInput chunks (visitedNodes st)))
      end
  end.
End Traversal.

(** [indexPDF]: the loop that adds the triples of chunk [i] to the store. *)
Definition chunk_graph (i : nat) : string :=
  String.append "chunk_" (NilZero.string_of_uint (Nat.to_uint i)).

Definition triple_quad (i : nat) (triple : string * string * string) : N3.Quad :=
  {| N3.subject := fst (fst triple); N3.predicate := snd (fst triple);
     N3.object := snd triple; N3.graph := chunk_graph i |}.

Definition add_triples (rdfStore : N3.Store)
    (triples : list (string * string * string)) (i : nat) : N3.Store :=
  fold_left (fun rdfStore triple => N3.addQuad rdfStore (triple_quad i triple))
    triples rdfStore.

(** [SYNONYM_THRESHOLD = 0.95]: the binary64 number the literal denotes. *)
Definition SYNONYM_THRESHOLD : float := 0x1.e666666666666p-1%float.

Definition synonym_quad (i : nat) (entity other : string) : N3.Quad :=
  {| N3.subject := entity; N3.predicate := "is_synonym";
     N3.object := other; N3.graph := chunk_graph i |}.

(** The body of [for (const entity of chunkEntities)] in [indexPDF], for
    chunk [i]; [embedding] is the completion of [getEmbedding(entity)].  The
    outcome is the vector store after the body, which keeps what was stored
    when an error leaves the body, and the completion with the quad handed
    to [rdfStore.addQuad], if one is. *)
Definition index_entity (vectorStore : VectorStore.t) (entity : string)
    (embedding : result (list float)) (i : nat)
    : VectorStore.t * result (option N3.Quad) :=
  match embedding with
  | Throw error => (vectorStore, Throw error)
  | Return embedding0 =>
      let vectorStore := VectorStore.store vectorStore entity embedding0 in
      match VectorStore.get_most_similar vectorStore entity embedding0 1 with
      | Throw error => (vectorStore, Throw error)
      | Return similarities =>
          match similarities with
          | first :: _ =>
              if (SYNONYM_THRESHOLD <=? VectorStore.similarity first)%float
              then (vectorStore,
                    Return (Some (synonym_quad i entity
                                    (VectorStore.sim_text first))))
              else (vectorStore, Return None)
          | [] => (vectorStore, Return None)
          end
      end
  end.

(** The loop over the entities of chunk [i], each with the completion of its
    [getEmbedding]: the vector store and the quads added so far when the
    loop ends or an error leaves it. *)
Fixpoint index_entities (vectorStore : VectorStore.t)
    (entities : list (string * result (list float))) (i : nat)
    (added : list N3.Quad)
    : VectorStore.t * list N3.Quad * result unit :=
  match entities with
  | [] => (vectorStore, added, Return tt)
  | (entity, embedding) :: rest =>
      match index_entity vectorStore entity embedding i with
      | (vectorStore, Throw error) => (vectorStore, added, Throw error)
      | (vectorStore, Return None) => index_entities vectorStore rest i added
      | (vectorStore, Return (Some synQuad)) =>
          index_entities vectorStore rest i (added ++ [synQuad])
      end
  end.

End Query.

(** ** Regular expressions of the sources

    The patterns the sources match are sequences of literal characters and
    of greedy runs of a character class, each run followed by a character
    outside its class: from a given start such a pattern matches in one way
    at most, the run taken whole.  [\s] is taken on ASCII text. *)

Section Scanning.

(** The longest prefix of [s] whose characters are in the class, and the
    rest. *)
Fixpoint span (class : ascii -> bool) (s : string) : string * string :=
  match s with
  | String c s' =>
      if class c then let (run, rest) := span class s' in (String c run, rest)
      else (EmptyString, s)
  | EmptyString => (EmptyString, EmptyString)
  end.

(** [class+] *)
Definition one_or_more (class : ascii -> bool) (s : string)
    : option (string * string) :=
  match span class s with
  | (EmptyString, _) => None
  | (run, rest) => Some (run, rest)
  end.

(** A literal character. *)
Definition expect (c : ascii) (s : string) : option string :=
  match s with
  | String c' s' => if Ascii.eqb c' c then Some s' else None
  | EmptyString => None
  end.

(** A literal text. *)
Fixpoint expect_text (literal s : string) : option string :=
  match literal with
  | EmptyString => Some s
  | String c literal' =>
      match expect c s with
      | Some s' => expect_text literal' s'
      | None => None
      end
  end.

Definition other_than (c : ascii) (c' : ascii) : bool := negb (Ascii.eqb c' c).

Fixpoint all_in (class : ascii -> bool) (s : string) : bool :=
  match s with
  | String c s' => (class c && all_in class s')%bool
  | EmptyString => true
  end.

(** [s.trim().length > 0] *)
Definition not_blank (s : string) : bool := negb (all_in is_whitespace s).

End Scanning.

(** ** index.ts: the persisted graph *)

Module Rdf.

Local Infix "+++" := String.append (right associativity, at level 60).

(** The pattern of [loadRDFStoreFromText], tried at the start of [s];
    with Q written for the double quote it is
    [<([^>]+)>\s+<([^>]+)>\s+Q([^Q]+)Q@en\s+<([^>]+)>\s+\.] *)
Definition match_here (s : string) : option N3.Quad :=
  match expect "<" s with None => None | Some s =>
  match one_or_more (other_than ">") s with None => None | Some (subject, s) =>
  match expect ">" s with None => None | Some s =>
  match one_or_more is_whitespace s with None => None | Some (_, s) =>
  match expect "<" s with None => None | Some s =>
  match one_or_more (other_than ">") s with None => None | Some (predicate, s) =>
  match expect ">" s with None => None | Some s =>
  match one_or_more is_whitespace s with None => None | Some (_, s) =>
  match expect "034" s with None => None | Some s =>
  match one_or_more (other_than "034") s with None => None | Some (object, s) =>
  match expect "034" s with None => None | Some s =>
  match expect_text "@en" s with None => None | Some s =>
  match one_or_more is_whitespace s with None => None | Some (_, s) =>
  match expect "<" s with None => None | Some s =>
  match one_or_more (other_than ">") s with None => None | Some (graph, s) =>
  match expect ">" s with None => None | Some s =>
  match one_or_more is_whitespace s with None => None | Some (_, s) =>
  match expect "." s with None => None | Some _ =>
    Some {| N3.subject := subject; N3.predicate := predicate;
            N3.object := object; N3.graph := graph |}
  end end end end end end end end end end end end end end end end end end.

(** [line.match(pattern)]: the match at the leftmost start that has one. *)
Fixpoint match_line (line : string) : option N3.Quad :=
  match match_here line with
  | Some q => Some q
  | None =>
      match line with
      | String _ rest => match_line rest
      | EmptyString => None
      end
  end.

(** The quads [loadRDFStoreFromText] hands to [rdfStore.addQuad], in
    order. *)
Definition quads_of_text (rdfText : string) : list N3.Quad :=
  flat_map (fun line =>
              match match_line line with
              | Some q => [q]
              | None => []
              end)
    (filter not_blank (split rdfText "010"%char)).

Definition loadRDFStoreFromText (rdfStore : N3.Store) (rdfText : string)
    : N3.Store :=
  fold_left N3.addQuad (quads_of_text rdfText) rdfStore.

(** [loadRDFStore]; [rdfFile] is the completion of [fs.readFile]. *)
Definition loadRDFStore (rdfStore : N3.Store) (rdfFile : result string)
    : result unit * N3.Store :=
  match rdfFile with
  | Return text => (Return tt, loadRDFStoreFromText rdfStore text)
  | Throw error =>
      match code error with
      | Some "ENOENT" => (Return tt, rdfStore)
      | _ =>
          (Throw (Error (String.append "Failed to load RDF store: "
                           (message error))), rdfStore)
      end
  end.

(** A line in the format the loader documents:
    [<subject> <predicate> "object"@en <graph> .] *)
Definition line_of (q : N3.Quad) : string :=
  "<" +++ N3.subject q +++ "> <" +++ N3.predicate q +++ "> "
  +++ VectorStore.dquote +++ N3.object q +++ VectorStore.dquote
  +++ "@en <" +++ N3.graph q +++ "> .".

(** One line per quad, each ended by a line feed. *)
Fixpoint text_of (quads : list N3.Quad) : string :=
  match quads with
  | [] => EmptyString
  | q :: rest => line_of q +++ newline +++ text_of rest
  end.

(** What the line format can carry: terms that are not empty and hold no
    line feed, names without [>], an object without a double quote. *)
Definition name_ok (s : string) : bool :=
  (negb (s =? "") && all_in (other_than ">") s
   && all_in (other_than "010") s)%bool.

Definition writable (q : N3.Quad) : bool :=
  (name_ok (N3.subject q) && name_ok (N3.predicate q) && name_ok (N3.graph q)
   && negb (N3.object q =? "") && all_in (other_than "034") (N3.object q)
   && all_in (other_than "010") (N3.object q))%bool.

End Rdf.

(** ** Sample data *)

(** ** Trimming *)

(** [s.trimEnd()] *)
Fixpoint trim_end (s : string) : string :=
  match s with
  | EmptyString => EmptyString
  | String c s' =>
      match trim_end s' with
      | EmptyString => if is_whitespace c then EmptyString else String c EmptyString
      | kept => String c kept
      end
  end.

(** [s.trim()] *)
Definition trim (s : string) : string := trim_end (trim_start s).

(** ** The chunk indices cited in an answer *)

Module Citations.

(** [\d] *)
Definition is_digit (c : ascii) : bool :=
  let n := nat_of_ascii c in ((48 <=? n) && (n <=? 57))%nat.

(** [[\d,\s]] *)
Definition in_list (c : ascii) : bool :=
  (is_digit c || Ascii.eqb c "," || is_whitespace c)%bool.

(** The pattern of [extractChunkIndices], tried at the start of [s]:
    [\{chunk_indices:\s*\[([\d,\s]+)\]\}].  A match gives its group and
    the text after it. *)
Definition match_here (s : string) : option (string * string) :=
  match expect_text "{chunk_indices:" s with None => None | Some s =>
  let (_, s) := span is_whitespace s in
  match expect "[" s with None => None | Some s =>
  match one_or_more in_list s with None => None | Some (numbers, s) =>
  match expect "]" s with None => None | Some s =>
  match expect "}" s with None => None | Some s => Some (numbers, s)
  end end end end end.

(** [text.matchAll(pattern)]: the groups of the successive matches, each
    search starting where the match before it ended.  Every step consumes
    a character; [fuel] bounds the steps. *)
Fixpoint matchAll_from (fuel : nat) (s : string) : list string :=
  match fuel with
  | 0 => []
  | S fuel' =>
      match match_here s with
      | Some (numbers, rest) => numbers :: matchAll_from fuel' rest
      | None =>
          match s with
          | String _ s' => matchAll_from fuel' s'
          | EmptyString => []
          end
      end
  end.

Definition matchAll (text : string) : list string :=
  matchAll_from (S (String.length text)) text.

(** [match[1].split(',').map(num => parseInt(num.trim()))
    .filter(num => !isNaN(num))] *)
Definition numbers_of (group : string) : list Z :=
  flat_map (fun num =>
              match parseInt_string (trim num) with
              | Some n => [n]
              | None => []
              end)
    (split group ",").

(** [indices.add(num)] on a [Set], kept in insertion order. *)
Definition add (indices : list Z) (num : Z) : list Z :=
  if existsb (Z.eqb num) indices then indices else indices ++ [num].

Definition extractChunkIndices (text : string) : list Z :=
  fold_left (fun indices group => fold_left add (numbers_of group) indices)
    (matchAll text) [].

End Citations.

(** ** The first pass over the chunks (pdf.ts, the batched variant) *)

Module InitialPass.

(** [error.name] and [`${error}`] for the error values. *)
Definition name (e : JSError) : string :=
  match e with
  | Error _ | SystemError _ _ => "Error"
  | SyntaxError _ => "SyntaxError"
  | TypeError _ => "TypeError"
  end.

Definition toString (e : JSError) : string :=
  if message e =? "" then name e
  else String.append (name e) (String.append ": " (message e)).

(** An index of [slice], counted from the end when negative and clamped to
    the array. *)
Definition clamp (len : nat) (k : Z) : nat :=
  if (k <? 0)%Z then Z.to_nat (Z.max (Z.of_nat len + k) 0)
  else Nat.min (Z.to_nat k) len.

(** [l.slice(start, end)] for integers. *)
Definition slice {A : Type} (l : list A) (start end_ : Z) : list A :=
  let from := clamp (List.length l) start in
  let to := clamp (List.length l) end_ in
  firstn (to - from) (skipn from l).

(** [l.map((x, index) => f(x, index))], the indices counted from
    [index]. *)
Fixpoint map_indexed {A B : Type} (f : A -> Z -> B) (l : list A) (index : Z)
    : list B :=
  match l with
  | [] => []
  | x :: l' => f x index :: map_indexed f l' (index + 1)%Z
  end.

Fixpoint fulfilled {A : Type} (settled : list (result A)) : list A :=
  match settled with
  | [] => []
  | Return a :: rest => a :: fulfilled rest
  | Throw _ :: rest => fulfilled rest
  end.

Fixpoint rejected {A : Type} (settled : list (result A)) : list JSError :=
  match settled with
  | [] => []
  | Return _ :: rest => rejected rest
  | Throw e :: rest => e :: rejected rest
  end.

Section Batches.
Variable ChunkAnalysis : Type.

(** [analyzeChunk(chunk, question, chunkIndex)] for the question asked:
    the completion of its promise. *)
Variable analyzeChunk : string -> Z -> result ChunkAnalysis.

(** Which of the rejections of one batch comes first is up to the timing
    of the requests. *)
Variable first_rejected : list JSError -> JSError.

(** [await Promise.all(promises)], the promises given by their
    completions. *)
Definition Promise_all (settled : list (result ChunkAnalysis))
    : result (list ChunkAnalysis) :=
  match rejected settled with
  | [] => Return (fulfilled settled)
  | errors => Throw (first_rejected errors)
  end.

(** The [for (let i = 0; i < chunks.length; i += batchSize)] loop.
    [calls] lists the chunk indices [analyzeChunk] was called with: every
    chunk of a batch is requested before the batch is awaited.  [None]
    stands for a loop still running when [fuel] is spent. *)
Fixpoint for_batches (fuel : nat) (chunks : list string) (batchSize i : Z)
    (analyses : list ChunkAnalysis) (calls : list Z)
    : option (result (list ChunkAnalysis) * list Z) :=
  match fuel with
  | 0 => None
  | S fuel' =>
      if (i <? Z.of_nat (List.length chunks))%Z then
        let batch := slice chunks i (i + batchSize) in
        let batchPromises :=
          map_indexed (fun chunk batchIndex => analyzeChunk chunk (i + batchIndex)%Z)
            batch 0 in
        let calls :=
          calls ++ map_indexed (fun _ batchIndex => (i + batchIndex)%Z) batch 0 in
        match Promise_all batchPromises with
        | Return batchResults =>
            for_batches fuel' chunks batchSize (i + batchSize)
              (analyses ++ batchResults) calls
        | Throw error => Some (Throw error, calls)
        end
      else Some (Return analyses, calls)
  end.

Definition api_error (error : JSError) : JSError :=
  Error (String.append "OpenAI API error: " (toString error)).

(** The [try] around the loop and its [catch]. *)
Definition llm_do_initial_pass (chunks : list string) (batchSize : Z)
    (fuel : nat) : option (result (list ChunkAnalysis) * list Z) :=
  match for_batches fuel chunks batchSize 0 [] [] with
  | Some (Return analyses, calls) => Some (Return analyses, calls)
  | Some (Throw error, calls) => Some (Throw (api_error error), calls)
  | None => None
  end.

(** The completions of the chunks' analyses in chunk order, each chunk
    with its own index. *)
Definition outcomes (chunks : list string) : list (result ChunkAnalysis) :=
  map_indexed analyzeChunk chunks 0.

End Batches.

End InitialPass.

(** ** Cutting the document into chunks *)

Module Chunking.

Definition is_line_feed (c : ascii) : bool := Ascii.eqb c "010".

(** [text.split(/\n{2,}/)]: the pieces between the maximal runs of two or
    more line feeds.  [piece] is the piece read so far; [separating] holds
    while the line feeds of a separator are passed over. *)
Fixpoint split_blank_lines_from (s : string) (piece : string)
    (separating : bool) : list string :=
  match s with
  | EmptyString => [piece]
  | String c s' =>
      if is_line_feed c then
        if separating then split_blank_lines_from s' piece true
        else
          match s' with
          | String c' _ =>
              if is_line_feed c'
              then piece :: split_blank_lines_from s' EmptyString true
              else split_blank_lines_from s'
                     (String.append piece (String c EmptyString)) false
          | EmptyString => [String.append piece (String c EmptyString)]
          end
      else split_blank_lines_from s'
             (String.append piece (String c EmptyString)) false
  end.

Definition split_blank_lines (text : string) : list string :=
  split_blank_lines_from text EmptyString false.

(** [[.!?]] *)
Definition is_end (c : ascii) : bool :=
  (Ascii.eqb c "." || Ascii.eqb c "!" || Ascii.eqb c "?")%bool.

(** The matches of [/[^.!?]+[.!?]+/g]: a run of other characters with the
    run of marks after it.  [sentence] is the match read so far and [ending]
    holds once it has a mark.  Marks with nothing before them begin no
    match, and neither does text with no mark after it. *)
Fixpoint matches_from (s : string) (sentence : string) (ending : bool)
    : list string :=
  match s with
  | EmptyString => if ending then [sentence] else []
  | String c s' =>
      if is_end c then
        if sentence =? EmptyString then matches_from s' EmptyString false
        else matches_from s' (String.append sentence (String c EmptyString)) true
      else
        if ending then sentence :: matches_from s' (String c EmptyString) false
        else matches_from s' (String.append sentence (String c EmptyString)) false
  end.

(** [chunk.match(/[^.!?]+[.!?]+/g) || [chunk]]: [match] gives [null] when
    nothing matches. *)
Definition sentences_of (chunk : string) : list string :=
  match matches_from chunk EmptyString false with
  | [] => [chunk]
  | sentences => sentences
  end.

Definition fits (s : string) (max_chunk_length : Z) : bool :=
  (Z.of_nat (String.length s) <=? max_chunk_length)%Z.

(** [if (currentChunk) finalChunks.push(currentChunk.trim())] *)
Definition push_current (finalChunks : list string) (currentChunk : string)
    : list string :=
  if currentChunk =? EmptyString then finalChunks
  else finalChunks ++ [trim currentChunk].

(** The body of [for (const word of words)]; the state is [finalChunks]
    with [currentChunk]. *)
Definition add_word (max_chunk_length : Z) (state : list string * string)
    (word : string) : list string * string :=
  let (finalChunks, currentChunk) := state in
  if fits (String.append currentChunk (String.append " " word)) max_chunk_length
  then (finalChunks,
        String.append currentChunk
          (String.append (if currentChunk =? EmptyString then EmptyString else " ")
             word))
  else (push_current finalChunks currentChunk, word).

(** The body of [for (const sentence of sentences)]. *)
Definition add_sentence (max_chunk_length : Z) (state : list string * string)
    (sentence : string) : list string * string :=
  let (finalChunks, currentChunk) := state in
  if fits (String.append currentChunk sentence) max_chunk_length
  then (finalChunks, String.append currentChunk sentence)
  else
    let finalChunks := push_current finalChunks currentChunk in
    if negb (fits sentence max_chunk_length)
    then fold_left (add_word max_chunk_length) (split sentence " ")
           (finalChunks, EmptyString)
    else (finalChunks, sentence).

(** The body of [for (const chunk of initialChunks)]. *)
Definition add_chunk (max_chunk_length : Z) (finalChunks : list string)
    (chunk : string) : list string :=
  if fits chunk max_chunk_length then finalChunks ++ [chunk]
  else
    let (finalChunks, currentChunk) :=
      fold_left (add_sentence max_chunk_length) (sentences_of chunk)
        (finalChunks, EmptyString) in
    push_current finalChunks currentChunk.

Definition initialChunks (text : string) : list string :=
  filter (fun chunk => (0 <? String.length chunk)%nat)
    (map trim (split_blank_lines text)).

Definition chunkPDF (text : string) (max_chunk_length : Z) : list string :=
  fold_left (add_chunk max_chunk_length) (initialChunks text) [].

(** What every chunk returned is: within the bound, or one word. *)
Definition bounded_or_word (max_chunk_length : Z) (chunk : string) : Prop :=
  fits chunk max_chunk_length = true
  \/ all_in (other_than " ") chunk = true.

End Chunking.

(** ** Indexing a document *)

Module Indexing.
Import Query.

Section IndexPDF.

(** The oracles of [indexPDF], by the index of the chunk they are asked
    about: the completion of [extractEntities], each entity with the
    completion of its [getEmbedding], and the completion of
    [extractRDFTriples]. *)
Variable extractEntities : nat -> result (list (string * result (list float))).
Variable extractRDFTriples : nat -> result (list (string * string * string)).

(** The body of [for (let i = 0; i < max_chunks; i++)]: the [try] block
    and its [catch], which logs the error and goes on.  The state is the
    vector store with the quads handed to [rdfStore.addQuad] so far. *)
Definition index_chunk (state : VectorStore.t * list N3.Quad) (i : nat)
    : VectorStore.t * list N3.Quad :=
  let (vectorStore, added) := state in
  match extractEntities i with
  | Throw _ => (vectorStore, added)
  | Return chunkEntities =>
      match index_entities vectorStore chunkEntities i added with
      | (vectorStore, added, Throw _) => (vectorStore, added)
      | (vectorStore, added, Return _) =>
          match extractRDFTriples i with
          | Throw _ => (vectorStore, added)
          | Return triples => (vectorStore, added ++ map (triple_quad i) triples)
          end
      end
  end.

(** [max_chunks == -1 ? chunks.length : max_chunks] *)
Definition chunks_to_index (chunks : list string) (max_chunks : Z) : Z :=
  if (max_chunks =? -1)%Z then Z.of_nat (List.length chunks) else max_chunks.

(** [indexPDF] from the chunks on: its return value, the vector store and
    the quads added. *)
Definition indexPDF (chunks : list string) (max_chunks : Z)
    (vectorStore : VectorStore.t) : bool * (VectorStore.t * list N3.Quad) :=
  (true,
   fold_left index_chunk
     (seq 0 (Z.to_nat (chunks_to_index chunks max_chunks)))
     (vectorStore, [])).

End IndexPDF.

End Indexing.

Module Examples.
Import VectorStore Prompts.

(** Three entries, of which the first and the third score alike against
    [towards_x]. *)
Definition three_entries : VectorStore.t :=
  store (store (store [] "A" [1; 0]%float) "B" [0; 1]%float) "C" [2; 0]%float.

Definition towards_x : list float := [1; 0]%float.

(** Three entries whose scores against [far_along_x] are 0, NaN and 1: the
    products of the second overflow. *)
Definition overflowing : VectorStore.t :=
  store (store (store [] "C" [0; 1]%float) "B" [0x1p600; 0]%float)
    "A" [1; 0]%float.

Definition far_along_x : list float := [0x1p500; 0]%float.

(** The entries of [three_entries] as [load] finds them in [this.entries]. *)
Definition stored_before : list JSValue := map entry_value three_entries.

(** A file whose only entry has an empty text. *)
Definition empty_text_file : JSValue :=
  JObject [ ("entries",
             JArray [ JObject [ ("text", JString EmptyString);
                                ("embedding", JArray [JNumber 1%float]) ] ]) ].

(** A store with an entry under the empty text. *)
Definition with_empty_text : VectorStore.t :=
  store (store [] "A" [1; 0]%float) EmptyString [0; 1]%float.

(** A second entry that points the way of the first. *)
Definition with_synonym : VectorStore.t := store [] "Radio City" [2; 0]%float.

Definition located_in : N3.Quad :=
  {| N3.subject := "RadioCity"; N3.predicate := "locatedIn";
     N3.object := "India"; N3.graph := "chunk_0" |}.

Definition launched_in : N3.Quad :=
  {| N3.subject := "RadioCity"; N3.predicate := "launchedIn";
     N3.object := "2001"; N3.graph := "chunk_0" |}.

(** Two facts that come from the same chunk. *)
Definition one_chunk : N3.Store :=
  N3.addQuad (N3.addQuad [] located_in) launched_in.

(** A graph with the cycle A -> B -> A. *)
Definition cycle : N3.Store :=
  [ {| N3.subject := "A"; N3.predicate := "knows";
       N3.object := "B"; N3.graph := "chunk_0" |};
    {| N3.subject := "B"; N3.predicate := "knows";
       N3.object := "A"; N3.graph := "chunk_1" |} ].

(** An oracle that selects the whole frontier at every hop. *)
Definition whole_frontier (depth : nat) (nodes : list GraphNode)
    : result (list GraphNode) :=
  Return nodes.

Definition radio_city : VectorStore.t := store [] "RadioCity" [1; 0]%float.

Definition one_chunk_document : list string :=
  [ "Radio City is in India. It was launched in 2001." ].

(** An analysis that fails on an empty chunk and otherwise answers with the
    index it was given; of several rejections the first listed wins. *)
Definition analyze_nonempty (chunk : string) (chunkIndex : Z) : result Z :=
  if chunk =? EmptyString then Throw (Error "empty chunk") else Return chunkIndex.

Definition first_listed (errors : list JSError) : JSError :=
  hd (Error EmptyString) errors.

End Examples.

(** * Properties *)

Unset Implicit Arguments.

(** ** Sorting with a consistent comparator *)

Section ArraySortFacts.
Variable A : Type.
Variable compareFn : A -> A -> float.

Local Notation "'gt'" := (sorts_after compareFn).
Local Notation "'insert'" := (insert_sorted compareFn).
Local Notation "'not_after'" := (fun a b => sorts_after compareFn a b = false).

Lemma insert_sorted_perm (x : A) (l : list A) :
  Permutation (insert x l) (x :: l).
Proof.
  induction l as [|y l IH]; simpl.
  - apply Permutation_refl.
  - destruct (gt x y).
    + apply Permutation_trans with (y :: x :: l).
      * now apply perm_skip.
      * apply perm_swap.
    + apply Permutation_refl.
Qed.

Lemma sort_perm (l : list A) : Permutation (sort compareFn l) l.
Proof.
  induction l as [|x l IH]; simpl.
  - apply perm_nil.
  - eapply Permutation_trans.
    + apply insert_sorted_perm.
    + now apply perm_skip.
Qed.

Lemma sort_In (l : list A) (x : A) : In x (sort compareFn l) <-> In x l.
Proof.
  split; apply Permutation_in;
    [apply sort_perm | apply Permutation_sym, sort_perm].
Qed.

Section Consistent.
Variable dom : list A.
Hypothesis Hdom : consistent_comparator compareFn dom = true.

Lemma gt_asym x y : In x dom -> In y dom -> gt x y = true -> gt y x = false.
Proof.
  intros Hx Hy Hxy. unfold consistent_comparator in Hdom.
  rewrite forallb_forall in Hdom. specialize (Hdom x Hx).
  rewrite forallb_forall in Hdom. specialize (Hdom y Hy).
  apply andb_prop in Hdom. destruct Hdom as [H _].
  rewrite Hxy in H. simpl in H. now destruct (gt y x).
Qed.

Lemma gt_split x y z :
  In x dom -> In y dom -> In z dom ->
  gt x z = true -> gt x y = true \/ gt y z = true.
Proof.
  intros Hx Hy Hz Hxz. unfold consistent_comparator in Hdom.
  rewrite forallb_forall in Hdom. specialize (Hdom x Hx).
  rewrite forallb_forall in Hdom. specialize (Hdom y Hy).
  apply andb_prop in Hdom. destruct Hdom as [_ H].
  rewrite forallb_forall in H. specialize (H z Hz).
  rewrite Hxz in H. simpl in H. now apply orb_prop.
Qed.

Lemma insert_sorted_sorted (x : A) (l : list A) :
  In x dom -> incl l dom ->
  StronglySorted not_after l -> StronglySorted not_after (insert x l).
Proof.
  intros Hx. induction l as [|y l IH]; intros Hl Hs; simpl.
  - constructor; [constructor | constructor].
  - assert (Hy : In y dom) by (apply Hl; now left).
    assert (Hl' : incl l dom) by (intros z Hz; apply Hl; now right).
    inversion Hs as [|? ? Hs' Hall]; subst.
    destruct (gt x y) eqn:Hxy.
    + constructor.
      * now apply IH.
      * apply Forall_forall. intros z Hz.
        apply (Permutation_in _ (insert_sorted_perm x l)) in Hz.
        destruct Hz as [<- | Hz].
        -- now apply gt_asym.
        -- rewrite Forall_forall in Hall. now apply Hall.
    + constructor; [assumption|].
      constructor; [assumption|].
      apply Forall_forall. intros z Hz.
      rewrite Forall_forall in Hall. specialize (Hall z Hz).
      destruct (gt x z) eqn:Hxz; [|reflexivity].
      destruct (@gt_split x y z Hx Hy (Hl' z Hz) Hxz); congruence.
Qed.

Lemma sort_sorted (l : list A) :
  incl l dom -> StronglySorted not_after (sort compareFn l).
Proof.
  induction l as [|x l IH]; intros Hl; simpl.
  - constructor.
  - apply insert_sorted_sorted.
    + apply Hl. now left.
    + intros z Hz. apply Hl. right. now apply sort_In.
    + apply IH. intros z Hz. apply Hl. now right.
Qed.

Lemma insert_sorted_stable (x a : A) (l : list A) :
  In x dom -> In a dom -> incl l dom ->
  filter (tied compareFn x) (insert a l) =
  filter (tied compareFn x) (a :: l).
Proof.
  intros Hx Ha. induction l as [|y l IH]; intros Hl.
  - reflexivity.
  - assert (Hy : In y dom) by (apply Hl; now left).
    assert (Hl' : incl l dom) by (intros z Hz; apply Hl; now right).
    cbn [insert_sorted]. destruct (gt a y) eqn:Hay; [|reflexivity].
    cbn [filter]. rewrite (IH Hl'). cbn [filter].
    destruct (tied compareFn x a) eqn:Hta; [|reflexivity].
    destruct (tied compareFn x y) eqn:Hty; [|reflexivity].
    exfalso. unfold tied in Hta, Hty.
    apply andb_prop in Hta. destruct Hta as [_ Hax].
    apply andb_prop in Hty. destruct Hty as [Hxy _].
    apply negb_true_iff in Hax, Hxy.
    destruct (@gt_split a x y Ha Hx Hy Hay); congruence.
Qed.

Lemma sort_stable (x : A) (l : list A) :
  In x dom -> incl l dom ->
  filter (tied compareFn x) (sort compareFn l) = filter (tied compareFn x) l.
Proof.
  intros Hx. induction l as [|a l IH]; intros Hl.
  - reflexivity.
  - simpl sort. rewrite insert_sorted_stable.
    + cbn [filter]. rewrite IH; [reflexivity|].
      intros z Hz. apply Hl. now right.
    + assumption.
    + apply Hl. now left.
    + intros z Hz. apply Hl. right. now apply sort_In.
Qed.
End Consistent.
End ArraySortFacts.

(** ** The embedding store *)

Section VectorStoreFacts.
Import VectorStore.

Lemma contains_app (this more : t) (text0 : string) :
  contains (this ++ more) text0 = (contains this text0 || contains more text0)%bool.
Proof. unfold contains. apply existsb_app. Qed.

Lemma contains_false_filter (this : t) (text0 : string) :
  contains this text0 = false ->
  filter (fun entry => text entry =? text0) this = [].
Proof.
  unfold contains. induction this as [|entry this IH]; simpl; intros H.
  - reflexivity.
  - apply orb_false_iff in H. destruct H as [H1 H2].
    rewrite H1. now apply IH.
Qed.

Lemma contains_false_find (this more : t) (text0 : string) :
  contains this text0 = false ->
  find (this ++ more) text0 = find more text0.
Proof.
  unfold contains, find. induction this as [|entry this IH]; simpl; intros H.
  - reflexivity.
  - apply orb_false_iff in H. destruct H as [H1 H2].
    rewrite H1. now apply IH.
Qed.

Lemma store_present (this : t) (text0 : string) (embedding0 : list float) :
  contains this text0 = true -> store this text0 embedding0 = this.
Proof. intros H. unfold store. now rewrite H. Qed.

Lemma store_absent (this : t) (text0 : string) (embedding0 : list float) :
  contains this text0 = false ->
  store this text0 embedding0 =
  this ++ [ {| text := text0; embedding := embedding0 |} ].
Proof. intros H. unfold store. now rewrite H. Qed.

Lemma contains_store (this : t) (text0 : string) (embedding0 : list float) :
  contains (store this text0 embedding0) text0 = true.
Proof.
  unfold store. destruct (contains this text0) eqn:H; [assumption|].
  rewrite contains_app, H. simpl. now rewrite String.eqb_refl.
Qed.

(** C8: [store] is idempotent and the first write wins.  A second [store]
    under the same text never changes the store; a [store] under a text
    that is already present changes nothing; and once [text0] has been stored
    with [e1] into a store that did not hold it, a further [store] of
    [text0] with [e2] leaves exactly one entry for [text0], the one with
    [e1]. *)
Theorem store_first_write_wins (this : t) (text0 : string) (e1 e2 : list float) :
  store (store this text0 e1) text0 e2 = store this text0 e1
  /\ (contains this text0 = true -> store this text0 e2 = this)
  /\ (contains this text0 = false ->
      store (store this text0 e1) text0 e2
        = this ++ [ {| text := text0; embedding := e1 |} ]
      /\ count_text (store (store this text0 e1) text0 e2) text0 = 1
      /\ getEmbedding (store (store this text0 e1) text0 e2) text0 = Some e1).
Proof.
  assert (Hidem : store (store this text0 e1) text0 e2 = store this text0 e1)
    by (apply store_present, contains_store).
  split; [exact Hidem|]. split; [apply store_present|].
  intros Habsent. rewrite Hidem, (store_absent _ _ e1 Habsent).
  split; [reflexivity|]. split.
  - unfold count_text. rewrite filter_app, (contains_false_filter _ _ Habsent).
    simpl. now rewrite String.eqb_refl.
  - unfold getEmbedding. rewrite (contains_false_find _ _ _ Habsent).
    unfold find. simpl. now rewrite String.eqb_refl.
Qed.

(** C8 on the empty store: "Radio City" stored with [[1]] and then with
    [[2]]. *)
Lemma store_first_write_wins_witness :
  contains [] "Radio City" = false
  /\ store (store [] "Radio City" [1%float]) "Radio City" [2%float]
     = [ {| text := "Radio City"; embedding := [1%float] |} ]
  /\ count_text
       (store (store [] "Radio City" [1%float]) "Radio City" [2%float])
       "Radio City" = 1
  /\ getEmbedding
       (store (store [] "Radio City" [1%float]) "Radio City" [2%float])
       "Radio City" = Some [1%float].
Proof.
  split; [reflexivity|].
  exact (proj2 (proj2 (store_first_write_wins [] "Radio City" [1%float] [2%float]))
           eq_refl).
Defined.

Lemma collect_similarities_spec (entries : t) (text0 : string)
    (embedding0 : list float) (similarities : list Similarity) :
  collect_similarities entries text0 embedding0 similarities =
  if forallb (same_dimension embedding0) (considered entries text0)
  then Return (similarities ++ candidates entries text0 embedding0)
  else Throw dimension_mismatch.
Proof.
  revert similarities.
  induction entries as [|entry entries IH]; intros similarities.
  - simpl. now rewrite app_nil_r.
  - unfold candidates, considered in *. cbn [collect_similarities filter].
    destruct (text entry =? text0) eqn:Htext; cbn [negb].
    + apply IH.
    + cbn [map forallb]. unfold cosineSimilarity, same_dimension at 1.
      destruct (List.length (embedding entry) =? List.length embedding0)%nat;
        cbn [negb bind andb]; [|reflexivity].
      rewrite IH.
      destruct (forallb _ _); [|reflexivity].
      now rewrite <- app_assoc.
Qed.

Lemma get_most_similar_spec (this : t) (text0 : string)
    (embedding0 : list float) (max_results : Z) :
  get_most_similar this text0 embedding0 max_results =
  if forallb (same_dimension embedding0) (considered this text0)
  then Return (slice0 (sort by_similarity_desc
                         (candidates this text0 embedding0)) max_results)
  else Throw dimension_mismatch.
Proof.
  unfold get_most_similar. destruct this as [|entry this].
  - simpl. unfold slice0. simpl.
    destruct (max_results <? 0)%Z; now rewrite firstn_nil.
  - cbn [List.length Nat.eqb]. rewrite collect_similarities_spec.
    destruct (forallb _ _); reflexivity.
Qed.

Lemma same_dimension_all (this : t) (text0 : string) (embedding0 : list float) :
  forallb (same_dimension embedding0) (considered this text0) = true <->
  (forall entry, In entry this -> text entry <> text0 ->
                 List.length (embedding entry) = List.length embedding0).
Proof.
  rewrite forallb_forall. unfold considered, same_dimension. split.
  - intros H entry Hin Hneq. apply Nat.eqb_eq, H, filter_In.
    split; [assumption|]. now apply negb_true_iff, String.eqb_neq.
  - intros H entry Hin. apply filter_In in Hin. destruct Hin as [Hin Hneq].
    apply Nat.eqb_eq, H; [assumption|].
    now apply String.eqb_neq, negb_true_iff.
Qed.

Lemma same_dimension_some (this : t) (text0 : string) (embedding0 : list float) :
  forallb (same_dimension embedding0) (considered this text0) = false <->
  (exists entry, In entry this /\ text entry <> text0
                 /\ List.length (embedding entry) <> List.length embedding0).
Proof.
  unfold considered, same_dimension. split.
  - intros H.
    induction this as [|entry this IH]; [discriminate|].
    cbn [filter] in H. destruct (text entry =? text0) eqn:Htext; cbn [negb] in H.
    + destruct (IH H) as (e & Hin & Hrest). exists e. split; [now right|assumption].
    + cbn [forallb] in H.
      destruct (List.length (embedding entry) =? List.length embedding0)%nat eqn:Hlen.
      * destruct (IH H) as (e & Hin & Hrest). exists e. split; [now right|assumption].
      * exists entry. split; [now left|]. split.
        -- now apply String.eqb_neq.
        -- now apply Nat.eqb_neq.
  - intros (entry & Hin & Hneq & Hlen).
    apply not_true_is_false. intros Hall. rewrite forallb_forall in Hall.
    apply Hlen, Nat.eqb_eq, Hall, filter_In. split; [assumption|].
    now apply negb_true_iff, String.eqb_neq.
Qed.

(** C10: [get_most_similar] throws the dimension error of [cosineSimilarity]
    exactly when some stored entry with a text other than the query's has an
    embedding whose length differs from the query embedding's, and returns
    exactly when every such entry has the query embedding's length. *)
Theorem get_most_similar_dimension_error (this : t) (text0 : string)
    (embedding0 : list float) (max_results : Z) :
  ((exists entry, In entry this /\ text entry <> text0
                  /\ List.length (embedding entry) <> List.length embedding0)
   <-> get_most_similar this text0 embedding0 max_results
       = Throw dimension_mismatch)
  /\ ((forall entry, In entry this -> text entry <> text0 ->
                     List.length (embedding entry) = List.length embedding0)
      <-> exists similarities,
            get_most_similar this text0 embedding0 max_results
            = Return similarities).
Proof.
  rewrite get_most_similar_spec, <- same_dimension_all, <- same_dimension_some.
  destruct (forallb _ _); split; split; intros H;
    try reflexivity; try discriminate; try (now eexists).
  now destruct H.
Qed.

(** C3, as stated, fails: with a stored embedding of another length than the
    query's, [get_most_similar] returns no ranking at all. *)
Lemma get_most_similar_ranking_counterexample :
  get_most_similar [ {| text := "A"; embedding := [1; 2]%float |} ]
    "q" [1; 2; 3]%float 10
  = Throw dimension_mismatch.
Proof. reflexivity. Qed.

(** C3, amended: when every stored entry with a text other than the query's
    has an embedding of the query embedding's length, the comparator
    [b.similarity - a.similarity] orders the scores consistently and
    [0 <= k], [get_most_similar] returns the first [k] of a ranking of the
    stored entries' cosine scores that
    - holds each entry with a text other than the query's once, and no other;
    - is descending: no entry is followed by one that sorts before it;
    - keeps entries that tie in their insertion order;
    and on the empty store it returns the empty array. *)
Theorem get_most_similar_ranking (this : t) (text0 : string)
    (embedding0 : list float) (k : Z) :
  (forall entry, In entry this -> text entry <> text0 ->
                 List.length (embedding entry) = List.length embedding0) ->
  consistent_comparator by_similarity_desc (candidates this text0 embedding0)
    = true ->
  (0 <= k)%Z ->
  exists ranked,
    get_most_similar this text0 embedding0 k
      = Return (firstn (Z.to_nat k) ranked)
    /\ Permutation ranked (candidates this text0 embedding0)
    /\ StronglySorted
         (fun a b => sorts_after by_similarity_desc a b = false) ranked
    /\ (forall x, In x ranked ->
          filter (tied by_similarity_desc x) ranked
          = filter (tied by_similarity_desc x)
              (candidates this text0 embedding0))
    /\ (forall r, In r ranked -> sim_text r <> text0)
    /\ get_most_similar [] text0 embedding0 k = Return [].
Proof.
  intros Hdim Hcmp Hk.
  exists (sort by_similarity_desc (candidates this text0 embedding0)).
  split.
  { rewrite get_most_similar_spec.
    rewrite (proj2 (same_dimension_all this text0 embedding0) Hdim).
    unfold slice0. now rewrite (proj2 (Z.ltb_ge k 0) Hk). }
  split; [apply sort_perm|].
  split; [eapply sort_sorted; [exact Hcmp | apply incl_refl]|].
  split.
  { intros x Hx. eapply sort_stable; [exact Hcmp | | apply incl_refl].
    now apply sort_In in Hx. }
  split.
  { intros r Hr. apply sort_In in Hr. unfold candidates, considered in Hr.
    apply in_map_iff in Hr. destruct Hr as (entry & <- & Hin).
    apply filter_In in Hin. destruct Hin as [_ Hneq]. simpl.
    now apply String.eqb_neq, negb_true_iff. }
  rewrite get_most_similar_spec. unfold slice0. simpl.
  destruct (k <? 0)%Z; now rewrite firstn_nil.
Qed.

(** C3 on three entries of which the first and the third tie: the best two
    are the first and the third, in that order. *)
Lemma get_most_similar_ranking_witness :
  (exists ranked,
     get_most_similar Examples.three_entries "q" Examples.towards_x 2
       = Return (firstn 2 ranked)
     /\ Permutation ranked
          (candidates Examples.three_entries "q" Examples.towards_x)
     /\ StronglySorted
          (fun a b => sorts_after by_similarity_desc a b = false) ranked
     /\ (forall x, In x ranked ->
           filter (tied by_similarity_desc x) ranked
           = filter (tied by_similarity_desc x)
               (candidates Examples.three_entries "q" Examples.towards_x))
     /\ (forall r, In r ranked -> sim_text r <> "q")
     /\ get_most_similar [] "q" Examples.towards_x 2 = Return [])
  /\ get_most_similar Examples.three_entries "q" Examples.towards_x 2
     = Return [ {| sim_text := "A"; similarity := 1 |};
                {| sim_text := "C"; similarity := 1 |} ].
Proof.
  split; [|reflexivity].
  apply (get_most_similar_ranking Examples.three_entries "q" Examples.towards_x 2).
  - intros entry Hin _. simpl in Hin.
    destruct Hin as [<- | [<- | [<- | []]]]; reflexivity.
  - reflexivity.
  - discriminate.
Defined.

(** A NaN score is neither above nor below any other: with one among the
    scores the comparator of [get_most_similar] is not consistent. *)
Example nan_score_is_not_ordered :
  candidates Examples.overflowing "q" Examples.far_along_x
  = [ {| sim_text := "C"; similarity := 0 |};
      {| sim_text := "B"; similarity := nan |};
      {| sim_text := "A"; similarity := 1 |} ]
  /\ consistent_comparator by_similarity_desc
       (candidates Examples.overflowing "q" Examples.far_along_x)
     = false.
Proof. split; reflexivity. Qed.

End VectorStoreFacts.

(** ** Loading the persisted embedding store *)

Section LoadFacts.
Import VectorStore.

Lemma validate_entry_spec (entry : JSValue) :
  if well_formed_entry entry then validate_entry entry = Return tt
  else exists e, validate_entry entry = Throw e /\ code e = None.
Proof.
  unfold validate_entry.
  destruct entry as [| b | n | str | elements | properties]; simpl;
    try (eexists; split; reflexivity).
  destruct (truthy (lookup "text" properties)); simpl;
    [|eexists; split; reflexivity].
  destruct (isArray (lookup "embedding" properties)); simpl;
    [reflexivity | eexists; split; reflexivity].
Qed.

Lemma validate_entries_spec (entries : list JSValue) :
  if forallb well_formed_entry entries then validate_entries entries = Return tt
  else exists e, validate_entries entries = Throw e /\ code e = None.
Proof.
  induction entries as [|entry entries IH]; simpl; [reflexivity|].
  pose proof (validate_entry_spec entry) as Hentry.
  destruct (well_formed_entry entry); simpl.
  - rewrite Hentry. simpl. exact IH.
  - destruct Hentry as (e & -> & He). exists e. now split.
Qed.

Lemma load_try_spec (parsed : JSValue) :
  match entries_array parsed with
  | Some entries =>
      if forallb well_formed_entry entries then load_try parsed = Return entries
      else exists e, load_try parsed = Throw e /\ code e = None
  | None => exists e, load_try parsed = Throw e /\ code e = None
  end.
Proof.
  unfold load_try, entries_array.
  destruct parsed as [| b | n | str | elements | properties]; simpl;
    try (eexists; split; reflexivity).
  destruct (lookup "entries" properties) as [| v |]; simpl;
    try (eexists; split; reflexivity).
  destruct v as [| b | n | str | elements | properties']; simpl;
    try (eexists; split; reflexivity);
    try (destruct b; eexists; split; reflexivity);
    try (destruct (negb _); eexists; split; reflexivity).
  pose proof (validate_entries_spec elements) as Hentries.
  destruct (forallb well_formed_entry elements).
  - now rewrite Hentries.
  - destruct Hentries as (e & -> & He). exists e. now split.
Qed.

(** C7: [load] is all or nothing.  When the file is there but is not
    well formed (no [entries] array, or an entry without a non-empty text or
    without an array for its embedding) the call throws a "Failed to load
    vector store" error and the entries are those from before the call;
    when it is well formed the entries become the file's; when there is no
    such file the call returns and the store is empty. *)
Theorem load_all_or_nothing (this : list JSValue) :
  (forall parsed, well_formed parsed = false ->
     exists reason,
       load (Return parsed) this = (Throw (load_failure reason), this))
  /\ (forall parsed entries,
        well_formed parsed = true -> entries_array parsed = Some entries ->
        load (Return parsed) this = (Return tt, entries))
  /\ (forall reason,
        load (Throw (SystemError "ENOENT" reason)) this = (Return tt, [])).
Proof.
  split; [|split].
  - intros parsed Hbad. unfold well_formed in Hbad.
    pose proof (load_try_spec parsed) as Htry. unfold load. simpl.
    destruct (entries_array parsed) as [entries|].
    + rewrite Hbad in Htry. destruct Htry as (e & -> & He).
      rewrite He. now exists (message e).
    + destruct Htry as (e & -> & He). rewrite He. now exists (message e).
  - intros parsed entries Hok Harr. unfold well_formed in Hok.
    pose proof (load_try_spec parsed) as Htry. unfold load. simpl.
    rewrite Harr in Htry, Hok. rewrite Hok in Htry. now rewrite Htry.
  - reflexivity.
Qed.

(** C7 on a file whose entry has an empty text, loaded over three entries. *)
Lemma load_all_or_nothing_witness :
  well_formed Examples.empty_text_file = false
  /\ (exists reason,
        load (Return Examples.empty_text_file) Examples.stored_before
        = (Throw (load_failure reason), Examples.stored_before))
  /\ load (Return Examples.empty_text_file) Examples.stored_before
     = (Throw (Error "Failed to load vector store: Invalid entry format in vector store file"),
        Examples.stored_before).
Proof.
  split; [reflexivity|]. split; [|reflexivity].
  exact (proj1 (load_all_or_nothing Examples.stored_before)
           Examples.empty_text_file eq_refl).
Defined.

End LoadFacts.

(** ** The quad store *)

Section StoreFacts.

Lemma same_quad_refl (q : N3.Quad) : N3.same_quad q q = true.
Proof. unfold N3.same_quad. now rewrite !String.eqb_refl. Qed.

Lemma same_quad_eq (q1 q2 : N3.Quad) : N3.same_quad q1 q2 = true <-> q1 = q2.
Proof.
  destruct q1 as [s1 p1 o1 g1], q2 as [s2 p2 o2 g2]. unfold N3.same_quad.
  cbn [N3.subject N3.predicate N3.object N3.graph].
  rewrite !andb_true_iff, !String.eqb_eq. split.
  - now intros [[[-> ->] ->] ->].
  - intros [= -> -> -> ->]. auto.
Qed.

Lemma count_app (this that : N3.Store) (q : N3.Quad) :
  N3.count (this ++ that) q = N3.count this q + N3.count that q.
Proof. unfold N3.count. now rewrite filter_app, length_app. Qed.

(** What one [addQuad] does to the number of entries of a quad: one more
    when it is the quad handed in and the store did not have it. *)
Lemma count_addQuad (this : N3.Store) (q0 q : N3.Quad) :
  N3.count (N3.addQuad this q0) q
  = N3.count this q
    + (if (N3.same_quad q q0 && negb (N3.has this q0))%bool then 1 else 0).
Proof.
  unfold N3.addQuad. destruct (N3.has this q0).
  - rewrite andb_false_r. lia.
  - rewrite count_app, andb_true_r. unfold N3.count. cbn [filter].
    now destruct (N3.same_quad q q0).
Qed.

Lemma has_addQuad (this : N3.Store) (q0 q : N3.Quad) :
  N3.has (N3.addQuad this q0) q = (N3.has this q || N3.same_quad q q0)%bool.
Proof.
  unfold N3.addQuad. destruct (N3.has this q0) eqn:Hhas.
  - destruct (N3.same_quad q q0) eqn:Hsame; [|now rewrite orb_false_r].
    apply same_quad_eq in Hsame as ->. now rewrite Hhas.
  - unfold N3.has. rewrite existsb_app. cbn [existsb].
    now rewrite orb_false_r.
Qed.

Lemma addQuad_again (this : N3.Store) (q : N3.Quad) :
  N3.addQuad (N3.addQuad this q) q = N3.addQuad this q.
Proof.
  unfold N3.addQuad at 1. now rewrite has_addQuad, same_quad_refl, orb_true_r.
Qed.

(** A store that holds each of its quads once stays so under [addQuad], and
    holds what it held and what was handed in. *)
Lemma addQuad_all (quads : list N3.Quad) :
  forall this : N3.Store,
  (forall q, N3.count this q = if N3.has this q then 1 else 0) ->
  forall q,
    N3.count (fold_left N3.addQuad quads this) q
    = if (N3.has this q || existsb (N3.same_quad q) quads)%bool then 1 else 0.
Proof.
  induction quads as [|q0 quads IH]; intros this Hthis q; cbn [fold_left existsb].
  - now rewrite orb_false_r.
  - rewrite IH.
    + now rewrite has_addQuad, orb_assoc.
    + intros q'. rewrite count_addQuad, has_addQuad, Hthis.
      destruct (N3.same_quad q' q0) eqn:Hsame.
      * apply same_quad_eq in Hsame as ->.
        now destruct (N3.has this q0).
      * cbn [andb]. rewrite orb_false_r. destruct (N3.has this q'); lia.
Qed.

Lemma add_triples_all (triples : list (string * string * string)) (i : nat)
    (rdfStore : N3.Store) :
  Query.add_triples rdfStore triples i
  = fold_left N3.addQuad (map (Query.triple_quad i) triples) rdfStore.
Proof.
  unfold Query.add_triples. revert rdfStore.
  induction triples as [|triple triples IH]; intros rdfStore; cbn [fold_left map];
    [reflexivity | apply IH].
Qed.

(** The loop of [indexPDF] handing the same triple to the store twice: the
    store holds it once. *)
Lemma addQuad_drops_repeated_quad :
  Query.add_triples []
    [ ("RadioCity", "locatedIn", "India"); ("RadioCity", "locatedIn", "India") ] 0
  = [ Examples.located_in ]
  /\ N3.count
       (Query.add_triples []
          [ ("RadioCity", "locatedIn", "India");
            ("RadioCity", "locatedIn", "India") ] 0)
       Examples.located_in = 1.
Proof. split; reflexivity. Qed.

(** C2, as amended: the store keeps one entry per distinct quad.  After any
    sequence of [addQuad] calls on an empty store a quad has one entry when
    it was among those inserted and none otherwise, however often it was
    inserted: quads that differ in any of the four terms, the graph
    included, are kept apart, and the identical quad inserted a second time
    changes nothing.  The loop of [indexPDF] hands every triple of a chunk to
    the store with no check of its own, so after it the store holds one
    entry for each distinct quad of before and of the chunk. *)
Theorem addQuad_keeps_distinct_quads (quads : list N3.Quad) (q : N3.Quad)
    (triples : list (string * string * string)) (i : nat) :
  N3.count (fold_left N3.addQuad quads []) q
    = (if existsb (N3.same_quad q) quads then 1 else 0)
  /\ N3.addQuad (N3.addQuad (fold_left N3.addQuad quads []) q) q
     = N3.addQuad (fold_left N3.addQuad quads []) q
  /\ N3.count (N3.addQuad (N3.addQuad (fold_left N3.addQuad quads []) q) q) q
     = 1
  /\ N3.count (Query.add_triples (fold_left N3.addQuad quads []) triples i) q
     = (if existsb (N3.same_quad q) (quads ++ map (Query.triple_quad i) triples)
        then 1 else 0).
Proof.
  assert (Hempty : forall q', N3.count [] q' = if N3.has [] q' then 1 else 0)
    by reflexivity.
  split; [exact (addQuad_all quads [] Hempty q)|].
  split; [apply addQuad_again|]. split.
  - rewrite addQuad_again.
    change (N3.addQuad (fold_left N3.addQuad quads []) q)
      with (fold_left N3.addQuad [q] (fold_left N3.addQuad quads [])).
    rewrite <- fold_left_app, (addQuad_all (quads ++ [q]) [] Hempty q).
    cbn [N3.has existsb orb]. rewrite existsb_app. cbn [existsb].
    now rewrite same_quad_refl, orb_true_r.
  - rewrite add_triples_all, <- fold_left_app.
    exact (addQuad_all (quads ++ map (Query.triple_quad i) triples) []
             Hempty q).
Qed.

End StoreFacts.

(** ** The retry loop of the oracle requests *)

Section OracleFacts.
Import Prompts.

Variable A : Type.
Variable create : nat -> result (option string).
Variable JSON_parse : string -> result A.
Variable fallback exhausted : string.


End OracleFacts.

(** ** Packing the context of the answer request *)

Section ContextFacts.
Import Prompts.

Lemma length_append (s1 s2 : string) :
  String.length (String.append s1 s2) = String.length s1 + String.length s2.
Proof. induction s1 as [|c s1 IH]; simpl; [reflexivity | now rewrite IH]. Qed.

Lemma labelled_length (index0 : JSInt) (chunk0 : string) :
  String.length chunk0 <= String.length (labelled index0 chunk0).
Proof. unfold labelled. rewrite !length_append. lia. Qed.

Lemma chunk_characters_cons (item : string * JSInt) (items : list (string * JSInt)) :
  chunk_characters (item :: items)
  = String.length (fst item) + chunk_characters items.
Proof. reflexivity. Qed.

Lemma build_context_spec (items : list (string * JSInt)) (max_characters : Z) :
  forall (context : string) (chunkIndices : list JSInt) (counted : nat),
  counted <= String.length context ->
  exists n,
    n <= List.length items
    /\ build_context (map qa items) max_characters context chunkIndices
       = Return (with_chunks context (firstn n items),
                 chunkIndices ++ map snd (firstn n items))
    /\ (0 < n ->
        (Z.of_nat (counted + chunk_characters (firstn n items))
         <= max_characters)%Z)
    /\ (forall j item, j < n -> nth_error items j = Some item ->
        (Z.of_nat (String.length (with_chunks context (firstn j items)))
         + Z.of_nat (String.length (fst item)) <= max_characters)%Z)
    /\ (forall item, nth_error items n = Some item ->
        (max_characters
         < Z.of_nat (String.length (with_chunks context (firstn n items)))
           + Z.of_nat (String.length (fst item)))%Z).
Proof.
  induction items as [|item items IH]; intros context chunkIndices counted Hc.
  - exists 0. simpl. rewrite app_nil_r.
    repeat split; try lia; intros; discriminate.
  - cbn [map build_context qa qa_chunk index fst snd].
    destruct (Z.of_nat (String.length context)
              + Z.of_nat (String.length (fst item)) <=? max_characters)%Z
      eqn:Htest.
    + apply Z.leb_le in Htest.
      destruct (IH (String.append context (labelled (snd item) (fst item)))
                   (chunkIndices ++ [snd item])
                   (counted + String.length (fst item)))
        as (n & Hn & Hrun & Hsum & Hfit & Hstop).
      { rewrite length_append.
        pose proof (labelled_length (snd item) (fst item)). lia. }
      exists (S n). cbn [firstn List.length with_chunks fold_left map].
      split; [lia|]. split.
      { rewrite Hrun. unfold with_chunks. now rewrite <- app_assoc. }
      split.
      { intros _. rewrite chunk_characters_cons.
        destruct n as [|n'].
        - change (chunk_characters (firstn 0 items)) with 0. lia.
        - specialize (Hsum ltac:(lia)). lia. }
      split.
      { intros j item' Hj Hnth. destruct j as [|j'].
        - simpl in Hnth. injection Hnth as <-. simpl. exact Htest.
        - simpl in Hnth. cbn [firstn fold_left].
          apply (Hfit j' item'); [lia | assumption]. }
      intros item' Hnth. simpl in Hnth. now apply Hstop.
    + apply Z.leb_gt in Htest. exists 0. simpl. rewrite app_nil_r.
      repeat split; try lia.
      intros item' Hitem. injection Hitem as <-. lia.
Qed.

(** C9, as stated, fails: the label and the blank lines added around a chunk
    are not counted when the chunk is admitted, so the packed context can be
    longer than the budget. *)
Lemma question_context_budget_counterexample :
  exists context chunkIndices,
    question_context [ qa ("hello", Some 0%Z) ] 5 = Return (context, chunkIndices)
    /\ String.length context = 18
    /\ (5 < Z.of_nat (String.length context))%Z.
Proof. eexists. eexists. split; [reflexivity|]. split; [reflexivity|]. reflexivity. Qed.

(** C9, amended: the context holds a prefix of the chunks, in their order,
    each one whole under its label, and [chunkIndices] their indices; every
    chunk of the prefix was admitted because the context before it plus the
    chunk itself fit the budget; the first chunk left out, if any, is one
    for which they do not; and the characters of the packed chunks
    themselves never exceed the budget. *)
Theorem question_context_packs_whole_chunks (items : list (string * JSInt))
    (max_characters : Z) :
  exists n,
    n <= List.length items
    /\ question_context (map qa items) max_characters
       = Return (with_chunks EmptyString (firstn n items),
                 map snd (firstn n items))
    /\ (Z.of_nat (chunk_characters (firstn n items))
        <= Z.max 0 max_characters)%Z
    /\ (forall j item, j < n -> nth_error items j = Some item ->
        (Z.of_nat (String.length (with_chunks EmptyString (firstn j items)))
         + Z.of_nat (String.length (fst item)) <= max_characters)%Z)
    /\ (forall item, nth_error items n = Some item ->
        (max_characters
         < Z.of_nat (String.length (with_chunks EmptyString (firstn n items)))
           + Z.of_nat (String.length (fst item)))%Z).
Proof.
  destruct (build_context_spec items max_characters EmptyString [] 0 (Nat.le_0_l _))
    as (n & Hn & Hrun & Hsum & Hfit & Hstop).
  exists n. split; [exact Hn|]. split; [exact Hrun|].
  split; [|split; assumption].
  destruct n as [|n'].
  - change (chunk_characters (firstn 0 items)) with 0. lia.
  - specialize (Hsum ltac:(lia)). cbn [Nat.add] in Hsum. lia.
Qed.

End ContextFacts.

(** ** The traversal of queryPDF *)

Section TraversalFacts.
Import Prompts Query.

Variable rdfStore_match :
  option string -> option string -> option string -> list N3.Quad.
Variable chooseNextGraphNode : nat -> list GraphNode -> result (list GraphNode).

Lemma GraphNode_eq_dec (g1 g2 : GraphNode) : {g1 = g2} + {g1 <> g2}.
Proof. decide equality; apply string_dec. Qed.

Lemma same_fact_spec (v : GraphNode) (n : N3.Quad) :
  same_fact v n = true <-> v = toGraphNode n.
Proof.
  unfold same_fact, toGraphNode. destruct v as [s p o c]. simpl.
  rewrite !andb_true_iff, !String.eqb_eq. split.
  - intros [[[-> ->] ->] ->]. reflexivity.
  - intros H. injection H as -> -> -> ->. auto.
Qed.

Lemma visited_spec (visited : list GraphNode) (n : N3.Quad) :
  existsb (fun v => same_fact v n) visited = true <-> In (toGraphNode n) visited.
Proof.
  rewrite existsb_exists. split.
  - intros (v & Hin & Hsame). apply same_fact_spec in Hsame. now subst.
  - intros Hin. exists (toGraphNode n). split; [assumption|].
    now apply same_fact_spec.
Qed.

Lemma visit_new_spec (queryNodes : list N3.Quad) :
  forall tmp visited,
  exists added,
    visit_new queryNodes tmp visited = (tmp ++ added, visited ++ added)
    /\ NoDup added
    /\ (forall g, In g added <->
                  ~ In g visited /\ In g (map toGraphNode queryNodes)).
Proof.
  induction queryNodes as [|n rest IH]; intros tmp visited.
  - exists []. simpl. rewrite !app_nil_r. split; [reflexivity|].
    split; [constructor|]. intros g. simpl. tauto.
  - cbn [visit_new].
    destruct (existsb (fun v => same_fact v n) visited) eqn:Hseen; cbn [negb].
    + apply visited_spec in Hseen.
      destruct (IH tmp visited) as (added & Hrun & Hnodup & Hin).
      exists added. split; [exact Hrun|]. split; [exact Hnodup|].
      intros g. rewrite Hin. simpl. split.
      * intros [Hnew Hfound]. auto.
      * intros [Hnew [<- | Hfound]]; [contradiction | auto].
    + assert (Hnew : ~ In (toGraphNode n) visited).
      { intros Hin. apply visited_spec in Hin. congruence. }
      destruct (IH (tmp ++ [toGraphNode n]) (visited ++ [toGraphNode n]))
        as (added & Hrun & Hnodup & Hin).
      exists (toGraphNode n :: added).
      split; [now rewrite Hrun, <- !app_assoc|].
      split.
      * constructor; [|exact Hnodup].
        intros Hadded. apply Hin in Hadded. destruct Hadded as [Hnot _].
        apply Hnot, in_or_app. right. now left.
      * intros g. simpl. rewrite Hin. rewrite in_app_iff. simpl. split.
        -- intros [<- | [Hnot Hfound]]; [auto | tauto].
        -- intros [Hnot [<- | Hfound]]; [now left|].
           destruct (GraphNode_eq_dec (toGraphNode n) g) as [Heq | Hneq];
             [now left | right; tauto].
Qed.

Lemma expand_spec (nextNodes : list GraphNode) :
  forall allNodes0 visited,
  exists added,
    expand rdfStore_match nextNodes allNodes0 visited
      = (allNodes0 ++ added, visited ++ added)
    /\ NoDup added
    /\ (forall g, In g added <->
          ~ In g visited
          /\ exists node, In node nextNodes
               /\ In g (map toGraphNode
                          (rdfStore_match None None (Some (value node))
                           ++ rdfStore_match (Some (subject node)) None None))).
Proof.
  induction nextNodes as [|node rest IH]; intros allNodes0 visited.
  - exists []. simpl. rewrite !app_nil_r. split; [reflexivity|].
    split; [constructor|]. intros g. simpl. split; [tauto|].
    intros [_ (node & [] & _)].
  - cbn [expand].
    destruct (visit_new_spec
                (rdfStore_match None None (Some (value node))
                 ++ rdfStore_match (Some (subject node)) None None)
                [] visited) as (added1 & Hrun1 & Hnodup1 & Hin1).
    rewrite Hrun1. cbn [app].
    destruct (IH (allNodes0 ++ added1) (visited ++ added1))
      as (added2 & Hrun2 & Hnodup2 & Hin2).
    exists (added1 ++ added2).
    split; [now rewrite Hrun2, <- !app_assoc|].
    split.
    + apply NoDup_app; [assumption | assumption |].
      intros g Hg1 Hg2. apply Hin2 in Hg2. destruct Hg2 as [Hnot _].
      apply Hnot, in_or_app. now right.
    + intros g. rewrite in_app_iff, Hin1, Hin2, in_app_iff. split.
      * intros [[Hnot Hfound] | [Hnot (node' & Hnode & Hfound)]].
        -- split; [assumption|]. exists node. split; [now left | assumption].
        -- split; [tauto|]. exists node'. split; [now right | assumption].
      * intros [Hnot (node' & [<- | Hnode] & Hfound)]; [left; tauto|].
        destruct (in_dec GraphNode_eq_dec g added1) as [Hadded | Hfresh].
        -- left. now apply Hin1.
        -- right. split; [tauto|]. eauto.
Qed.

(** C5: one pass over the selected nodes adds first-seen facts only.  The
    facts it adds are pairwise distinct, none of them was visited before, they
    are exactly the facts not yet visited that one of the two queries of some
    selected node finds, and they go to the next frontier and to the end of
    the visited list alike; a visited list without repeats stays so. *)
Theorem expand_adds_first_seen_only (nextNodes visited : list GraphNode) :
  exists added,
    expand rdfStore_match nextNodes [] visited = (added, visited ++ added)
    /\ NoDup added
    /\ (forall g, In g visited -> ~ In g added)
    /\ (forall g, In g added <->
          ~ In g visited
          /\ exists node, In node nextNodes
               /\ In g (map toGraphNode
                          (rdfStore_match None None (Some (value node))
                           ++ rdfStore_match (Some (subject node)) None None)))
    /\ (NoDup visited -> NoDup (visited ++ added)).
Proof.
  destruct (expand_spec nextNodes [] visited) as (added & Hrun & Hnodup & Hin).
  exists added. split; [exact Hrun|]. split; [exact Hnodup|].
  split; [|split; [exact Hin|]].
  - intros g Hvisited Hadded. apply Hin in Hadded. tauto.
  - intros Hvisited. apply NoDup_app; [assumption | assumption |].
    intros g Hg Hadded. apply Hin in Hadded. tauto.
Qed.

Lemma iteration_break (st : Loop) :
  iteration rdfStore_match chooseNextGraphNode st = Break
  <-> (2 < depth st \/ allNodes st = []).
Proof.
  unfold iteration.
  destruct (2 <? depth st)%nat eqn:Hdepth.
  - apply Nat.ltb_lt in Hdepth. tauto.
  - apply Nat.ltb_ge in Hdepth.
    destruct (allNodes st) as [|node nodes] eqn:Hnodes; simpl.
    + tauto.
    + destruct (chooseNextGraphNode (depth st) (node :: nodes)) as [nextNodes|e].
      * destruct (expand rdfStore_match nextNodes [] (visitedNodes st)).
        split; [discriminate|]. intros [H | H]; [lia | discriminate].
      * split; [discriminate|]. intros [H | H]; [lia | discriminate].
Qed.

Lemma iteration_continue (st next : Loop) :
  iteration rdfStore_match chooseNextGraphNode st = Continue next ->
  depth next = S (depth st) /\ depth st <= 2
  /\ exists nextNodes,
       expand rdfStore_match nextNodes [] (visitedNodes st)
       = (allNodes next, visitedNodes next).
Proof.
  unfold iteration.
  destruct (2 <? depth st)%nat eqn:Hdepth; [discriminate|].
  apply Nat.ltb_ge in Hdepth.
  destruct (List.length (allNodes st) =? 0)%nat; [discriminate|].
  destruct (chooseNextGraphNode (depth st) (allNodes st)) as [nextNodes|e];
    [|discriminate].
  destruct (expand rdfStore_match nextNodes [] (visitedNodes st))
    as [allNodes' visited'] eqn:Hexpand.
  intros H. injection H as <-. simpl. split; [reflexivity|].
  split; [assumption|]. now exists nextNodes.
Qed.

Lemma iteration_abort (st : Loop) (e : JSError) :
  iteration rdfStore_match chooseNextGraphNode st = Abort e ->
  depth st <= 2 /\ chooseNextGraphNode (depth st) (allNodes st) = Throw e.
Proof.
  unfold iteration.
  destruct (2 <? depth st)%nat eqn:Hdepth; [discriminate|].
  apply Nat.ltb_ge in Hdepth.
  destruct (List.length (allNodes st) =? 0)%nat; [discriminate|].
  destruct (chooseNextGraphNode (depth st) (allNodes st)) as [nextNodes|e'].
  - destruct (expand rdfStore_match nextNodes [] (visitedNodes st)).
    discriminate.
  - intros H. injection H as ->. now split.
Qed.

Lemma while_true_bounded (k : nat) :
  forall st, depth st + k = 3 ->
  exists hops out,
    hops <= k
    /\ (forall extra,
          while_true rdfStore_match chooseNextGraphNode (S hops + extra) st
          = Some out)
    /\ match out with
       | Return st' =>
           depth st' = depth st + hops
           /\ (2 < depth st' \/ allNodes st' = [])
       | Throw e =>
           exists d nodes, d < 3 /\ chooseNextGraphNode d nodes = Throw e
       end.
Proof.
  induction k as [|k IH]; intros st Hdepth.
  - assert (Hbreak : iteration rdfStore_match chooseNextGraphNode st = Break)
      by (apply iteration_break; lia).
    exists 0, (Return st). split; [lia|]. split.
    + intros extra. simpl. now rewrite Hbreak.
    + split; [lia|]. left. lia.
  - destruct (iteration rdfStore_match chooseNextGraphNode st)
      as [|next|e] eqn:Hiter.
    + exists 0, (Return st). split; [lia|]. split.
      * intros extra. simpl. now rewrite Hiter.
      * split; [lia|]. now apply iteration_break.
    + destruct (iteration_continue st next Hiter) as (Hnext & _ & _).
      destruct (IH next ltac:(lia)) as (hops & out & Hhops & Hrun & Hout).
      exists (S hops), out. split; [lia|]. split.
      * intros extra. cbn [Nat.add while_true]. rewrite Hiter. apply Hrun.
      * destruct out as [st'|e]; [|exact Hout].
        destruct Hout as [Hd Hstop]. split; [lia | exact Hstop].
    + destruct (iteration_abort st e Hiter) as [Hd He].
      exists 0, (Throw e). split; [lia|]. split.
      * intros extra. simpl. now rewrite Hiter.
      * exists (depth st), (allNodes st). split; [lia | exact He].
Qed.

(** C4: the expansion loop ends within three hops.  From any frontier, on
    any graph and whatever the oracle answers, the loop ends after at most
    three passes through its body: either at a [break], with as many hops
    counted as passes were made and with the hop counter above 2 or the
    frontier empty, or with an error the oracle threw.  A pass ends the loop
    by [break] exactly when the hop counter is above 2 or the frontier is
    empty. *)
Theorem traversal_ends_within_three_hops (frontier : list GraphNode) :
  (exists hops out,
     hops <= 3
     /\ (forall extra,
           while_true rdfStore_match chooseNextGraphNode (S hops + extra)
             {| depth := 0; allNodes := frontier; visitedNodes := [] |}
           = Some out)
     /\ match out with
        | Return st =>
            depth st = hops /\ (2 < depth st \/ allNodes st = [])
        | Throw e =>
            exists d nodes, d < 3 /\ chooseNextGraphNode d nodes = Throw e
        end)
  /\ (forall st,
        iteration rdfStore_match chooseNextGraphNode st = Break
        <-> (2 < depth st \/ allNodes st = [])).
Proof.
  split; [|exact iteration_break].
  destruct (while_true_bounded 3
              {| depth := 0; allNodes := frontier; visitedNodes := [] |}
              eq_refl) as (hops & out & Hhops & Hrun & Hout).
  exists hops, out. split; [exact Hhops|]. split; [exact Hrun|].
  destruct out as [st|e]; [|exact Hout]. exact Hout.
Qed.

Lemma while_true_visited_NoDup (fuel : nat) :
  forall st st',
  NoDup (visitedNodes st) ->
  while_true rdfStore_match chooseNextGraphNode fuel st = Some (Return st') ->
  NoDup (visitedNodes st').
Proof.
  induction fuel as [|fuel IH]; intros st st' Hnodup Hrun; [discriminate|].
  cbn [while_true] in Hrun.
  destruct (iteration rdfStore_match chooseNextGraphNode st)
    as [|next|e] eqn:Hiter.
  - injection Hrun as <-. exact Hnodup.
  - apply (IH next st'); [|exact Hrun].
    destruct (iteration_continue st next Hiter) as (_ & _ & nextNodes & Hexpand).
    destruct (expand_spec nextNodes [] (visitedNodes st))
      as (added & Hadded & Hfresh & Hin).
    rewrite Hadded in Hexpand. injection Hexpand as _ <-.
    apply NoDup_app; [assumption | assumption |].
    intros g Hg Hg'. apply Hin in Hg'. tauto.
  - discriminate.
Qed.

(** C1, amended: what [queryPDF] hands to the answer stage holds one item
    per visited fact, in visiting order, each with the chunk index read off
    that fact's provenance.  The visited facts are pairwise distinct; their
    provenance identifiers need not be, and an identifier that several
    visited facts share occurs once for each of them. *)
Theorem retrieval_hands_off_each_visited_fact (vectorStore : VectorStore.t)
    (question : string) (embedding : result (list float))
    (chunks : list string) (fuel : nat) (handed : list QAInput) :
  retrieval rdfStore_match chooseNextGraphNode vectorStore question embedding
    chunks fuel = Some (Return handed) ->
  exists embedding0 similarities st,
    embedding = Return embedding0
    /\ VectorStore.get_most_similar vectorStore question embedding0 10
       = Return similarities
    /\ while_true rdfStore_match chooseNextGraphNode fuel
         {| depth := 0; allNodes := seed rdfStore_match similarities;
            visitedNodes := [] |}
       = Some (Return st)
    /\ NoDup (visitedNodes st)
    /\ handed
       = map (fun n =>
                {| qa_chunk := index_array chunks (parseInt (chunk_index n));
                   index := parseInt (chunk_index n) |})
           (visitedNodes st)
    /\ map index handed
       = map (fun n => parseInt (chunk_index n)) (visitedNodes st).
Proof.
  unfold retrieval. intros Hrun.
  destruct embedding as [embedding0|e]; simpl in Hrun; [|discriminate].
  destruct (VectorStore.get_most_similar vectorStore question embedding0 10)
    as [similarities|e] eqn:Hseed; [|discriminate].
  destruct (while_true rdfStore_match chooseNextGraphNode fuel _)
    as [[st|e]|] eqn:Hloop; try discriminate.
  injection Hrun as <-.
  exists embedding0, similarities, st.
  split; [reflexivity|]. split; [exact Hseed|]. split; [exact Hloop|].
  split.
  { eapply while_true_visited_NoDup; [|exact Hloop]. constructor. }
  unfold qaInput, chunkIndices. rewrite !map_map. split; reflexivity.
Qed.

(** With fuel for four passes [retrieval] always has an outcome. *)
Lemma retrieval_total (vectorStore : VectorStore.t) (question : string)
    (embedding : result (list float)) (chunks : list string) (extra : nat) :
  exists outcome,
    retrieval rdfStore_match chooseNextGraphNode vectorStore question embedding
      chunks (4 + extra) = Some outcome.
Proof.
  unfold retrieval.
  destruct (bind embedding _) as [similarities|e]; [|eauto].
  destruct (while_true_bounded 3
              {| depth := 0; allNodes := seed rdfStore_match similarities;
                 visitedNodes := [] |} eq_refl)
    as (hops & out & Hhops & Hrun & _).
  replace (4 + extra) with (S hops + (3 - hops + extra)) by lia.
  rewrite Hrun. destruct out; eauto.
Qed.

End TraversalFacts.

(** C1, as stated, fails: two visited facts of one chunk put that chunk twice
    into what is handed to the answer stage. *)
Lemma retrieval_repeats_shared_chunk :
  Query.retrieval (N3.match_ Examples.one_chunk) Examples.whole_frontier
    Examples.radio_city "Where is Radio City?" (Return Examples.towards_x)
    Examples.one_chunk_document 4
  = Some (Return
      [ {| Prompts.qa_chunk :=
             Some "Radio City is in India. It was launched in 2001.";
           Prompts.index := Some 0%Z |};
        {| Prompts.qa_chunk :=
             Some "Radio City is in India. It was launched in 2001.";
           Prompts.index := Some 0%Z |} ]).
Proof. reflexivity. Qed.

(** C1 on the same run: both visited facts are handed over, each with
    chunk 0. *)
Lemma retrieval_hands_off_each_visited_fact_witness :
  exists embedding0 similarities st,
    Return Examples.towards_x = Return embedding0
    /\ VectorStore.get_most_similar Examples.radio_city "Where is Radio City?"
         embedding0 10
       = Return similarities
    /\ Query.while_true (N3.match_ Examples.one_chunk) Examples.whole_frontier 4
         {| Query.depth := 0;
            Query.allNodes :=
              Query.seed (N3.match_ Examples.one_chunk) similarities;
            Query.visitedNodes := [] |}
       = Some (Return st)
    /\ NoDup (Query.visitedNodes st)
    /\ [ {| Prompts.qa_chunk :=
              Some "Radio City is in India. It was launched in 2001.";
            Prompts.index := Some 0%Z |};
         {| Prompts.qa_chunk :=
              Some "Radio City is in India. It was launched in 2001.";
            Prompts.index := Some 0%Z |} ]
       = map (fun n =>
                {| Prompts.qa_chunk :=
                     index_array Examples.one_chunk_document
                       (parseInt (Query.chunk_index n));
                   Prompts.index := parseInt (Query.chunk_index n) |})
           (Query.visitedNodes st)
    /\ map Prompts.index
         [ {| Prompts.qa_chunk :=
               Some "Radio City is in India. It was launched in 2001.";
             Prompts.index := Some 0%Z |};
           {| Prompts.qa_chunk :=
               Some "Radio City is in India. It was launched in 2001.";
             Prompts.index := Some 0%Z |} ]
       = map (fun n => parseInt (Query.chunk_index n)) (Query.visitedNodes st).
Proof.
  apply (retrieval_hands_off_each_visited_fact
           (N3.match_ Examples.one_chunk) Examples.whole_frontier
           Examples.radio_city "Where is Radio City?"
           (Return Examples.towards_x) Examples.one_chunk_document 4).
  reflexivity.
Defined.

(** On the cycle A -> B -> A, seeded with both facts and with an oracle that
    selects the whole frontier, the loop ends at its second hop with each
    fact visited once. *)
Example traversal_of_cycle :
  Query.while_true (N3.match_ Examples.cycle) Examples.whole_frontier 4
    {| Query.depth := 0;
       Query.allNodes :=
         map Query.toGraphNode (N3.match_ Examples.cycle None None None);
       Query.visitedNodes := [] |}
  = Some (Return
      {| Query.depth := 2; Query.allNodes := [];
         Query.visitedNodes := map Query.toGraphNode Examples.cycle |}).
Proof. reflexivity. Qed.

(** * Further properties of the sources *)

(** ** Binary64 arithmetic *)

Section FloatFacts.

Lemma SFmul_comm (prec emax : Z) (x y : spec_float) :
  SFmul prec emax x y = SFmul prec emax y x.
Proof.
  destruct x as [sx|sx| |sx mx ex], y as [sy|sy| |sy my ey]; simpl;
    try reflexivity; try (now rewrite xorb_comm).
  now rewrite xorb_comm, Pos.mul_comm, Z.add_comm.
Qed.

Lemma float_mul_comm (x y : float) : (x * y)%float = (y * x)%float.
Proof. apply Prim2SF_inj. rewrite !mul_spec. apply SFmul_comm. Qed.

(** The only numbers [=== 0] are the two zeros. *)
Lemma float_eqb_zero (x : float) :
  (x =? 0)%float = true -> x = 0%float \/ x = (-0)%float.
Proof.
  intros H. rewrite eqb_spec in H.
  change (Prim2SF 0) with (S754_zero false) in H.
  rewrite <- (SF2Prim_Prim2SF x).
  destruct (Prim2SF x) as [s|s| |s m e]; cbn in H.
  - destruct s; [right | left]; reflexivity.
  - destruct s; discriminate.
  - discriminate.
  - destruct s; discriminate.
Qed.

End FloatFacts.

(** ** More of the embedding store *)

Section VectorStoreMore.
Import VectorStore.

Lemma find_app (this more : t) (text0 : string) :
  find (this ++ more) text0 =
  match find this text0 with
  | Some entry => Some entry
  | None => find more text0
  end.
Proof.
  unfold find. induction this as [|entry this IH]; simpl; [reflexivity|].
  destruct (text entry =? text0); [reflexivity | exact IH].
Qed.

Lemma find_contains (this : t) (text0 : string) :
  find this text0 = None <-> contains this text0 = false.
Proof.
  unfold find, contains. induction this as [|entry this IH]; simpl.
  - tauto.
  - destruct (text entry =? text0); simpl; [split; discriminate | exact IH].
Qed.

Lemma getEmbedding_contains (this : t) (text0 : string) :
  getEmbedding this text0 = None <-> contains this text0 = false.
Proof.
  rewrite <- find_contains. unfold getEmbedding.
  destruct (find this text0); split; congruence.
Qed.

Lemma contains_In (this : t) (text0 : string) :
  contains this text0 = true <-> In text0 (map text this).
Proof.
  unfold contains. rewrite existsb_exists, in_map_iff. split.
  - intros (entry & Hin & Heq). apply String.eqb_eq in Heq. eauto.
  - intros (entry & Heq & Hin). exists entry. split; [assumption|].
    now apply String.eqb_eq.
Qed.

Lemma getEmbedding_store (this : t) (text0 : string) (embedding0 : list float)
    (text1 : string) :
  getEmbedding (store this text0 embedding0) text1 =
  match getEmbedding this text1 with
  | Some found => Some found
  | None => if text0 =? text1 then Some embedding0 else None
  end.
Proof.
  unfold store. destruct (contains this text0) eqn:Hc.
  - destruct (getEmbedding this text1) eqn:Hg; [reflexivity|].
    destruct (text0 =? text1) eqn:Heq; [|reflexivity].
    apply String.eqb_eq in Heq. subst text1.
    apply getEmbedding_contains in Hg. congruence.
  - unfold getEmbedding. rewrite find_app.
    destruct (find this text1); [reflexivity|].
    unfold find. simpl. now destruct (text0 =? text1).
Qed.

Lemma contains_after_store (this : t) (text0 : string)
    (embedding0 : list float) (text1 : string) :
  contains (store this text0 embedding0) text1
  = (contains this text1 || (text0 =? text1))%bool.
Proof.
  unfold store. destruct (contains this text0) eqn:Hc.
  - destruct (text0 =? text1) eqn:Heq.
    + apply String.eqb_eq in Heq. subst text1. now rewrite Hc.
    + now rewrite orb_false_r.
  - rewrite contains_app. unfold contains at 2. simpl. now rewrite orb_false_r.
Qed.

(** X1: looking up after a [store].  [getEmbedding] for [text1] after
    [store(text0, e)] gives what it gave before when that was an embedding,
    gives [e] when [text1] is [text0] and was absent, and stays [null]
    otherwise: a [store] never changes what another text, or a text already
    present, maps to.  [getEmbedding] is [null] exactly when [contains] is
    false, and [contains] after the [store] holds for [text0] and for what
    it held for before. *)
Theorem store_then_getEmbedding (this : t) (text0 : string)
    (embedding0 : list float) (text1 : string) :
  getEmbedding (store this text0 embedding0) text1 =
    match getEmbedding this text1 with
    | Some found => Some found
    | None => if text0 =? text1 then Some embedding0 else None
    end
  /\ (getEmbedding this text1 = None <-> contains this text1 = false)
  /\ contains (store this text0 embedding0) text1
     = (contains this text1 || (text0 =? text1))%bool.
Proof.
  split; [apply getEmbedding_store|]. split; [apply getEmbedding_contains|].
  apply contains_after_store.
Qed.

Lemma store_keeps_texts_unique (this : t) (text0 : string)
    (embedding0 : list float) :
  NoDup (map text this) -> NoDup (map text (store this text0 embedding0)).
Proof.
  intros Hnodup. unfold store. destruct (contains this text0) eqn:Hc;
    [assumption|].
  rewrite map_app. simpl. apply NoDup_app; [assumption | |].
  - constructor; [intros [] | constructor].
  - intros a Ha [<- | []]. apply contains_In in Ha. congruence.
Qed.

Lemma store_all_getEmbedding (writes : list (string * list float)) :
  forall (this : t) (text0 : string),
  getEmbedding (store_all this writes) text0 =
  match getEmbedding this text0 with
  | Some found => Some found
  | None => option_map snd (List.find (fun write => fst write =? text0) writes)
  end.
Proof.
  unfold store_all.
  induction writes as [|[text1 embedding1] writes IH]; intros this text0; simpl.
  - now destruct (getEmbedding this text0).
  - rewrite IH, getEmbedding_store.
    destruct (getEmbedding this text0); [reflexivity|].
    now destruct (text1 =? text0).
Qed.

Lemma store_all_keeps_texts_unique (writes : list (string * list float)) :
  forall this : t,
  NoDup (map text this) -> NoDup (map text (store_all this writes)).
Proof.
  unfold store_all. induction writes as [|write writes IH]; intros this H.
  - exact H.
  - simpl. apply IH. now apply store_keeps_texts_unique.
Qed.

(** X2: a store filled by [store] calls alone.  After any run of [store]
    calls on an empty store no two entries have the same text, and the
    embedding found for a text is the one of the first call that wrote that
    text ([null] when none did).  More generally a run of [store] calls
    keeps the texts of a store pairwise distinct. *)
Theorem store_all_first_write_wins (writes : list (string * list float))
    (text0 : string) :
  NoDup (map text (store_all [] writes))
  /\ getEmbedding (store_all [] writes) text0
     = option_map snd (List.find (fun write => fst write =? text0) writes)
  /\ (forall this : t,
        NoDup (map text this) -> NoDup (map text (store_all this writes))).
Proof.
  split; [apply store_all_keeps_texts_unique; constructor|].
  split; [now rewrite store_all_getEmbedding|].
  apply store_all_keeps_texts_unique.
Qed.

(** X3: the outcomes of [calcSimilarity].  A missing first text is reported
    as not found, whatever the second; else a missing second text is; and
    with both present the outcome is [cosineSimilarity] of the embeddings
    [getEmbedding] finds for them, its dimension error included. *)
Theorem calcSimilarity_outcome (this : t) (text1 text2 : string) :
  (contains this text1 = false ->
     calcSimilarity this text1 text2 = Throw (not_found text1))
  /\ (contains this text1 = true -> contains this text2 = false ->
       calcSimilarity this text1 text2 = Throw (not_found text2))
  /\ (contains this text1 = true -> contains this text2 = true ->
       exists e1 e2,
         getEmbedding this text1 = Some e1
         /\ getEmbedding this text2 = Some e2
         /\ calcSimilarity this text1 text2 = cosineSimilarity e1 e2).
Proof.
  unfold calcSimilarity, getEmbedding.
  pose proof (find_contains this text1) as H1.
  pose proof (find_contains this text2) as H2.
  destruct (find this text1) as [entry1|], (find this text2) as [entry2|];
    repeat split; intros; try reflexivity; try tauto;
    try (exfalso; assert (contains this text1 = false) by tauto; congruence);
    try (exfalso; assert (contains this text2 = false) by tauto; congruence);
    try (assert (Some entry1 = None) by tauto; discriminate);
    try (assert (Some entry2 = None) by tauto; discriminate).
  all: eauto.
Qed.

(** X3 on three stored entries: "A" and "C" are there, "Z" is not. *)
Lemma calcSimilarity_outcome_witness :
  contains Examples.three_entries "Z" = false
  /\ calcSimilarity Examples.three_entries "Z" "A" = Throw (not_found "Z")
  /\ calcSimilarity Examples.three_entries "A" "Z" = Throw (not_found "Z")
  /\ calcSimilarity Examples.three_entries "A" "C" = Return 1%float.
Proof.
  split; [reflexivity|]. split.
  - exact (proj1 (calcSimilarity_outcome Examples.three_entries "Z" "A") eq_refl).
  - split.
    + exact (proj1 (proj2 (calcSimilarity_outcome Examples.three_entries "A" "Z"))
               eq_refl eq_refl).
    + reflexivity.
Defined.

End VectorStoreMore.

(** ** More of the cosine ranking *)

Section CosineFacts.
Import VectorStore.

Lemma square_of_zero (x : float) :
  is_zero x = true -> (0 + x * x)%float = 0%float.
Proof.
  intros H. destruct (float_eqb_zero x H) as [-> | ->]; reflexivity.
Qed.

Lemma magnitude_of_zeros (vec : list float) :
  forallb is_zero vec = true -> magnitude vec = 0%float.
Proof.
  unfold magnitude. intros H.
  assert (Hsum : fold_left (fun sum val => (sum + val * val)%float) vec 0%float
                 = 0%float).
  { induction vec as [|x vec IH]; [reflexivity|].
    simpl in H. apply andb_prop in H. destruct H as [Hx Hvec].
    simpl. rewrite (square_of_zero x Hx). now apply IH. }
  now rewrite Hsum.
Qed.

(** X4: the zero guard of [cosineSimilarity].  For vectors of one length of
    which one holds zeros only (of either sign; the empty vector too),
    [cosineSimilarity] returns 0 and divides nothing, whatever the other
    vector holds. *)
Theorem cosineSimilarity_of_zero_vector (vec1 vec2 : list float) :
  List.length vec1 = List.length vec2 ->
  forallb is_zero vec1 = true \/ forallb is_zero vec2 = true ->
  cosineSimilarity vec1 vec2 = Return 0%float.
Proof.
  intros Hlen Hzero. unfold cosineSimilarity.
  rewrite (proj2 (Nat.eqb_eq _ _) Hlen). cbn [negb]. unfold cosine.
  destruct Hzero as [H | H]; rewrite (magnitude_of_zeros _ H).
  - reflexivity.
  - now rewrite orb_true_r.
Qed.

(** X4 on a zero vector against one that holds NaN and an infinity. *)
Lemma cosineSimilarity_of_zero_vector_witness :
  cosineSimilarity [0; -0]%float [nan; infinity]%float = Return 0%float.
Proof.
  apply cosineSimilarity_of_zero_vector; [reflexivity | left; reflexivity].
Defined.

Lemma dotProduct_comm_from (vec1 : list float) :
  forall (vec2 : list float) (sum : float),
  fold_left (fun sum p => (sum + fst p * snd p)%float) (combine vec1 vec2) sum
  = fold_left (fun sum p => (sum + fst p * snd p)%float) (combine vec2 vec1) sum.
Proof.
  induction vec1 as [|x vec1 IH]; intros [|y vec2] sum; simpl;
    try reflexivity.
  rewrite (float_mul_comm x y). apply IH.
Qed.

(** X5: [cosineSimilarity] is symmetric.  Called with its two vectors
    exchanged it has the same outcome: the same number, bit for bit, or the
    same dimension error. *)
Theorem cosineSimilarity_symmetric (vec1 vec2 : list float) :
  cosineSimilarity vec1 vec2 = cosineSimilarity vec2 vec1.
Proof.
  unfold cosineSimilarity.
  rewrite (Nat.eqb_sym (List.length vec1) (List.length vec2)).
  destruct (List.length vec2 =? List.length vec1)%nat; [|reflexivity].
  cbn [negb]. unfold cosine, dotProduct.
  rewrite (dotProduct_comm_from vec1 vec2).
  rewrite (orb_comm (magnitude vec1 =? 0)%float).
  now rewrite (float_mul_comm (magnitude vec1) (magnitude vec2)).
Qed.

Lemma firstn_In_incl (A : Type) (n : nat) (l : list A) (x : A) :
  In x (firstn n l) -> In x l.
Proof.
  revert l. induction n as [|n IH]; intros [|y l]; simpl; try tauto.
  intros [-> | H]; [now left | right; now apply IH].
Qed.

Lemma get_most_similar_In (this : t) (text0 : string)
    (embedding0 : list float) (max_results : Z) (similarities : list Similarity) :
  get_most_similar this text0 embedding0 max_results = Return similarities ->
  forall r, In r similarities ->
    exists entry,
      In entry this /\ text entry <> text0
      /\ sim_text r = text entry
      /\ similarity r = cosine (embedding entry) embedding0.
Proof.
  rewrite get_most_similar_spec.
  destruct (forallb _ _); [|discriminate].
  intros H. injection H as <-. intros r Hr.
  assert (Hin : In r (candidates this text0 embedding0)).
  { apply (sort_In _ by_similarity_desc). unfold slice0 in Hr.
    destruct (max_results <? 0)%Z; eapply firstn_In_incl; exact Hr. }
  unfold candidates, considered in Hin. apply in_map_iff in Hin.
  destruct Hin as (entry & <- & Hentry). apply filter_In in Hentry.
  destruct Hentry as [Hentry Hneq]. exists entry.
  split; [assumption|]. split; [|split; reflexivity].
  now apply String.eqb_neq, negb_true_iff.
Qed.

(** X6: how many results [get_most_similar] returns, and which.  When it
    returns, it returns [min(max_results, m)] scores for a [max_results] that
    is not negative, [m] being the number of entries whose text is not the
    query's, and all but the last [-max_results] of the [m] for a negative
    one; and every score returned is the text and the cosine of an entry of
    the store. *)
Theorem get_most_similar_size (this : t) (text0 : string)
    (embedding0 : list float) (max_results : Z) (similarities : list Similarity) :
  get_most_similar this text0 embedding0 max_results = Return similarities ->
  List.length similarities
    = (if (max_results <? 0)%Z
       then Z.to_nat (Z.max
              (Z.of_nat (List.length (considered this text0)) + max_results) 0)
       else Nat.min (Z.to_nat max_results)
              (List.length (considered this text0)))
  /\ (forall r, In r similarities ->
        exists entry,
          In entry this /\ text entry <> text0
          /\ sim_text r = text entry
          /\ similarity r = cosine (embedding entry) embedding0).
Proof.
  intros Hrun. split; [|now apply (get_most_similar_In _ _ _ _ _ Hrun)].
  rewrite get_most_similar_spec in Hrun.
  destruct (forallb _ _); [|discriminate].
  injection Hrun as <-.
  assert (Hlen : List.length (sort by_similarity_desc
                                (candidates this text0 embedding0))
                 = List.length (considered this text0)).
  { rewrite (Permutation_length (sort_perm _ by_similarity_desc _)).
    unfold candidates. apply length_map. }
  unfold slice0. rewrite Hlen.
  destruct (max_results <? 0)%Z eqn:Hneg; rewrite length_firstn, Hlen.
  - apply Z.ltb_lt in Hneg. lia.
  - reflexivity.
Qed.

(** X6 on three stored entries: the best two, and all but the last one. *)
Lemma get_most_similar_size_witness :
  (List.length
     [ {| sim_text := "A"; similarity := 1 |};
       {| sim_text := "C"; similarity := 1 |} ]
   = (if (2 <? 0)%Z
      then Z.to_nat (Z.max
             (Z.of_nat (List.length (considered Examples.three_entries "q")) + 2) 0)
      else Nat.min (Z.to_nat 2)
             (List.length (considered Examples.three_entries "q")))
   /\ (forall r,
         In r [ {| sim_text := "A"; similarity := 1 |};
                {| sim_text := "C"; similarity := 1 |} ] ->
         exists entry,
           In entry Examples.three_entries /\ text entry <> "q"
           /\ sim_text r = text entry
           /\ similarity r = cosine (embedding entry) Examples.towards_x))
  /\ get_most_similar Examples.three_entries "q" Examples.towards_x (-1)
     = Return [ {| sim_text := "A"; similarity := 1 |};
                {| sim_text := "C"; similarity := 1 |} ].
Proof.
  split; [|reflexivity].
  apply (get_most_similar_size Examples.three_entries "q" Examples.towards_x 2).
  reflexivity.
Defined.

End CosineFacts.

(** ** Saving and loading the embedding store *)

Section PersistenceFacts.
Import VectorStore.

Lemma validate_persisted_entry (entry : VectorEntry) :
  validate_entry (persisted_entry entry) =
  if negb (text entry =? "") then Return tt else Throw invalid_entry.
Proof.
  unfold validate_entry, persisted_entry. cbn.
  now destruct (text entry =? "").
Qed.

Lemma validate_persisted_entries (this : t) :
  validate_entries (map persisted_entry this) =
  if forallb (fun entry => negb (text entry =? "")) this
  then Return tt else Throw invalid_entry.
Proof.
  induction this as [|entry this IH]; [reflexivity|].
  cbn [map validate_entries forallb]. rewrite validate_persisted_entry.
  destruct (negb (text entry =? "")); [exact IH | reflexivity].
Qed.

Lemma persisted_number_kept (n : float) :
  kept_by_JSON n = true -> persisted_number n = JNumber n.
Proof.
  unfold kept_by_JSON, persisted_number. intros H.
  apply andb_prop in H. destruct H as [Hfinite Hzero].
  destruct (n =? 0)%float eqn:Hn.
  - destruct (float_eqb_zero n Hn) as [-> | ->]; [reflexivity|].
    discriminate.
  - now rewrite Hfinite.
Qed.

(** X7: [save] then [load].  Loading the file that [save] writes for a
    store succeeds exactly when no entry of the store has the empty text;
    otherwise the file is refused as holding an invalid entry and the loading
    store keeps what it had.  On success the entries loaded are the saved
    ones in their order, number for number when every number of the
    embeddings is finite and not the negative zero (which comes back as 0;
    NaN and the infinities come back as [null]). *)
Theorem save_then_load (this : t) (prior : list JSValue) :
  load (Return (saved this)) prior =
    (if forallb (fun entry => negb (text entry =? "")) this
     then (Return tt, map persisted_entry this)
     else (Throw (load_failure "Invalid entry format in vector store file"),
           prior))
  /\ ((forall entry n, In entry this -> In n (embedding entry) ->
                       kept_by_JSON n = true) ->
      map persisted_entry this = map entry_value this).
Proof.
  split.
  - unfold load, saved, load_try. cbn [bind get lookup String.eqb Ascii.eqb
      Bool.eqb truthy isArray negb orb].
    rewrite validate_persisted_entries.
    destruct (forallb _ this); reflexivity.
  - intros Hkept. apply map_ext_in. intros entry Hentry.
    unfold persisted_entry, entry_value. do 5 f_equal.
    apply map_ext_in. intros n Hn. apply persisted_number_kept.
    now apply (Hkept entry).
Qed.

(** X7 on a store that holds an entry under the empty text: its own file
    is refused. *)
Example save_then_load_empty_text :
  load (Return (saved Examples.with_empty_text)) Examples.stored_before
  = (Throw (Error "Failed to load vector store: Invalid entry format in vector store file"),
     Examples.stored_before).
Proof. reflexivity. Qed.

End PersistenceFacts.

(** ** The chunk identifier, written and read back *)

Section ChunkIdFacts.
Import Prompts Query.

Lemma append_assoc_char (piece : string) (c : ascii) (rest : string) :
  String.append (String.append piece (String c EmptyString)) rest
  = String.append piece (String c rest).
Proof. induction piece as [|a piece IH]; simpl; [reflexivity | now rewrite IH]. Qed.

Lemma split_from_digits (d : Decimal.uint) :
  forall piece : string,
  split_from "_"%char (NilEmpty.string_of_uint d) piece
  = [String.append piece (NilEmpty.string_of_uint d)].
Proof.
  induction d; intros piece; cbn [NilEmpty.string_of_uint split_from];
    try (change (Ascii.eqb _ "_"%char) with false; cbv iota;
         rewrite IHd, append_assoc_char; reflexivity).
  induction piece as [|a piece IH]; simpl; [reflexivity|].
  injection IH as IH. now rewrite <- IH at 1.
Qed.

Lemma read_digits_decimal (d : Decimal.uint) :
  forall acc : nat,
  read_digits 10 (NilEmpty.string_of_uint d) (Some (Z.of_nat acc))
  = Some (Z.of_nat (Nat.of_uint_acc d acc)).
Proof.
  induction d; intros acc; cbn [NilEmpty.string_of_uint read_digits Nat.of_uint_acc];
    [reflexivity | ..];
    change (digit_value _) with (Some 0%Z) || change (digit_value _) with (Some 1%Z)
    || change (digit_value _) with (Some 2%Z) || change (digit_value _) with (Some 3%Z)
    || change (digit_value _) with (Some 4%Z) || change (digit_value _) with (Some 5%Z)
    || change (digit_value _) with (Some 6%Z) || change (digit_value _) with (Some 7%Z)
    || change (digit_value _) with (Some 8%Z) || change (digit_value _) with (Some 9%Z);
    cbv iota beta; change (_ <? 10)%Z with true; cbv iota;
    rewrite <- IHd; do 2 f_equal; rewrite Nat.tail_mul_spec; lia.
Qed.

Lemma read_digits_decimal_start (d : Decimal.uint) :
  d <> Decimal.Nil ->
  read_digits 10 (NilEmpty.string_of_uint d) None
  = Some (Z.of_nat (Nat.of_uint_acc d 0)).
Proof.
  destruct d as [|d|d|d|d|d|d|d|d|d|d]; intros Hd; [congruence | ..];
    cbn [NilEmpty.string_of_uint read_digits Nat.of_uint_acc];
    (etransitivity; [|apply (read_digits_decimal d)]); reflexivity.
Qed.

Lemma parseInt_decimal (d : Decimal.uint) :
  parseInt_string (NilZero.string_of_uint d) = Some (Z.of_nat (Nat.of_uint d)).
Proof.
  unfold Nat.of_uint.
  destruct d as [|d|d|d|d|d|d|d|d|d|d]; [reflexivity | ..];
    destruct d as [|d|d|d|d|d|d|d|d|d|d]; try reflexivity;
    match goal with
    | |- parseInt_string (NilZero.string_of_uint ?x) = _ =>
        pose proof (read_digits_decimal_start x ltac:(discriminate)) as H
    end;
    cbn [NilZero.string_of_uint NilEmpty.string_of_uint] in *;
    unfold parseInt_string;
    lazy -[read_digits NilEmpty.string_of_uint Nat.of_uint_acc Z.of_nat];
    rewrite H; reflexivity.
Qed.

(** X8: the chunk identifier survives the graph.  A fact that [indexPDF]
    stored for chunk [i] carries the graph name [chunk_i]; [queryPDF] reads
    the text after the underscore back, [parseInt] of it is [i], and the
    item handed to the answer stage for the fact is chunk [i] of the document
    ([undefined] when the document has no such chunk) with index [i]. *)
Theorem chunk_id_round_trip (i : nat) (triple : string * string * string)
    (chunks : list string) :
  chunk_index (toGraphNode (triple_quad i triple))
    = Some (NilZero.string_of_uint (Nat.to_uint i))
  /\ parseInt (chunk_index (toGraphNode (triple_quad i triple)))
     = Some (Z.of_nat i)
  /\ qaInput chunks [toGraphNode (triple_quad i triple)]
     = [ {| qa_chunk := nth_error chunks i; index := Some (Z.of_nat i) |} ].
Proof.
  assert (Hsplit : chunk_index (toGraphNode (triple_quad i triple))
                   = Some (NilZero.string_of_uint (Nat.to_uint i))).
  { unfold chunk_index, toGraphNode, triple_quad, chunk_graph, split.
    cbn [chunk N3.graph String.append split_from].
    change (Ascii.eqb "c" "_") with false. change (Ascii.eqb "h" "_") with false.
    change (Ascii.eqb "u" "_") with false. change (Ascii.eqb "n" "_") with false.
    change (Ascii.eqb "k" "_") with false. change (Ascii.eqb "_" "_") with true.
    cbv iota. cbn [String.append nth_error].
    unfold NilZero.string_of_uint.
    destruct (Nat.to_uint i) eqn:Hd; try reflexivity;
      rewrite <- Hd at 1; rewrite split_from_digits; rewrite Hd; reflexivity. }
  assert (Hparse : parseInt (chunk_index (toGraphNode (triple_quad i triple)))
                   = Some (Z.of_nat i)).
  { rewrite Hsplit. unfold parseInt.
    now rewrite parseInt_decimal, DecimalNat.Unsigned.of_to. }
  split; [exact Hsplit|]. split; [exact Hparse|].
  unfold qaInput, chunkIndices. cbn [map]. rewrite Hparse.
  unfold index_array.
  destruct (Z.of_nat i <? 0)%Z eqn:Hneg; [apply Z.ltb_lt in Hneg; lia|].
  now rewrite Nat2Z.id.
Qed.

End ChunkIdFacts.

(** ** Indexing: the synonym quads *)

Section IndexFacts.
Import VectorStore Query.

Lemma index_entity_store (vectorStore : t) (entity : string)
    (embedding0 : list float) (i : nat) :
  fst (index_entity vectorStore entity (Return embedding0) i)
  = store vectorStore entity embedding0.
Proof.
  unfold index_entity.
  destruct (get_most_similar _ entity embedding0 1) as [[|first rest]|e];
    try reflexivity.
  now destruct (SYNONYM_THRESHOLD <=? similarity first)%float.
Qed.

Lemma index_entity_quad (vectorStore : t) (entity : string)
    (embedding0 : list float) (i : nat) (synQuad : N3.Quad) :
  snd (index_entity vectorStore entity (Return embedding0) i)
    = Return (Some synQuad) ->
  N3.subject synQuad = entity
  /\ N3.predicate synQuad = "is_synonym"
  /\ N3.graph synQuad = chunk_graph i
  /\ N3.object synQuad <> entity
  /\ exists entry,
       In entry vectorStore /\ text entry = N3.object synQuad
       /\ (SYNONYM_THRESHOLD <=? cosine (embedding entry) embedding0)%float
          = true.
Proof.
  unfold index_entity.
  destruct (get_most_similar (store vectorStore entity embedding0) entity
              embedding0 1) as [[|first rest]|e] eqn:Hrun; try discriminate.
  destruct (SYNONYM_THRESHOLD <=? similarity first)%float eqn:Hhigh;
    [|discriminate].
  cbn [snd]. intros H. injection H as <-. cbn.
  destruct (get_most_similar_In _ _ _ _ _ Hrun first (or_introl eq_refl))
    as (entry & Hin & Hneq & Htext & Hsim).
  split; [reflexivity|]. split; [reflexivity|]. split; [reflexivity|].
  split; [congruence|].
  exists entry. split; [|split; [now symmetry | now rewrite <- Hsim]].
  unfold store in Hin. destruct (contains vectorStore entity); [assumption|].
  apply in_app_or in Hin. destruct Hin as [Hin | [<- | []]]; [assumption|].
  now contradiction Hneq.
Qed.

(** X9: one entity of [indexPDF].  The entity is stored with its embedding
    before its synonym is looked for, and stays stored when that search
    throws; a failing [getEmbedding] leaves the store as it was.  A synonym
    quad, when one is added, has the entity for subject, [is_synonym] for
    predicate and the chunk for graph; its object is never the entity itself
    but the text of an entry stored earlier whose cosine with the entity's
    embedding is at least the threshold. *)
Theorem index_entity_synonym (vectorStore : t) (entity : string)
    (embedding0 : list float) (i : nat) :
  fst (index_entity vectorStore entity (Return embedding0) i)
    = store vectorStore entity embedding0
  /\ (forall error,
        index_entity vectorStore entity (Throw error) i
        = (vectorStore, Throw error))
  /\ (forall synQuad,
        snd (index_entity vectorStore entity (Return embedding0) i)
          = Return (Some synQuad) ->
        N3.subject synQuad = entity
        /\ N3.predicate synQuad = "is_synonym"
        /\ N3.graph synQuad = chunk_graph i
        /\ N3.object synQuad <> entity
        /\ exists entry,
             In entry vectorStore /\ text entry = N3.object synQuad
             /\ (SYNONYM_THRESHOLD <=? cosine (embedding entry) embedding0)%float
                = true).
Proof.
  split; [apply index_entity_store|]. split; [reflexivity|].
  apply index_entity_quad.
Qed.

(** X9 on a store that holds "Radio City": "RadioCity", pointing the same
    way, becomes its synonym. *)
Lemma index_entity_synonym_witness :
  snd (index_entity Examples.with_synonym "RadioCity" (Return [1; 0]%float) 3)
    = Return (Some (synonym_quad 3 "RadioCity" "Radio City"))
  /\ N3.object (synonym_quad 3 "RadioCity" "Radio City") <> "RadioCity"
  /\ N3.graph (synonym_quad 3 "RadioCity" "Radio City") = "chunk_3".
Proof.
  split; [reflexivity|].
  pose proof (proj2 (proj2 (index_entity_synonym Examples.with_synonym
                              "RadioCity" [1; 0]%float 3))
                (synonym_quad 3 "RadioCity" "Radio City") eq_refl)
    as (_ & _ & Hgraph & Hobject & _).
  split; [exact Hobject | exact Hgraph].
Defined.

Lemma contains_index_entity (vectorStore : t) (entity : string)
    (embedding : result (list float)) (i : nat) (text1 : string) :
  contains vectorStore text1 = true ->
  contains (fst (index_entity vectorStore entity embedding i)) text1 = true.
Proof.
  intros H. destruct embedding as [embedding0|e]; [|exact H].
  rewrite index_entity_store, contains_after_store, H. reflexivity.
Qed.

(** X10: the entities of one chunk.  However the loop over the entities
    ends, nothing stored is lost (an error does not undo the entities stored
    before it), at most one quad per entity was added, and each quad added is
    an [is_synonym] quad of the chunk between two different texts that are
    both stored afterwards; when the loop ends without an error every entity
    is stored. *)
Theorem index_entities_effects
    (entities : list (string * result (list float))) (i : nat) :
  forall (vectorStore : t) (added : list N3.Quad)
         (vectorStore' : t) (added' : list N3.Quad) (outcome : result unit),
  index_entities vectorStore entities i added
    = (vectorStore', added', outcome) ->
  exists more,
    added' = added ++ more
    /\ List.length more <= List.length entities
    /\ Forall (fun synQuad =>
                 N3.predicate synQuad = "is_synonym"
                 /\ N3.graph synQuad = chunk_graph i
                 /\ N3.subject synQuad <> N3.object synQuad
                 /\ contains vectorStore' (N3.subject synQuad) = true
                 /\ contains vectorStore' (N3.object synQuad) = true) more
    /\ (forall text1, contains vectorStore text1 = true ->
                      contains vectorStore' text1 = true)
    /\ (outcome = Return tt ->
        forall entity embedding, In (entity, embedding) entities ->
                                 contains vectorStore' entity = true).
Proof.
  induction entities as [|[entity embedding] rest IH];
    intros vectorStore added vectorStore' added' outcome Hrun.
  - simpl in Hrun. injection Hrun as <- <- <-. exists [].
    rewrite app_nil_r. repeat split; auto.
  - cbn [index_entities] in Hrun.
    destruct (index_entity vectorStore entity embedding i)
      as [stored [[synQuad|]|error]] eqn:Hstep.
    + destruct (IH _ _ _ _ _ Hrun) as (more & Hadded & Hlen & Hquads & Hkeep & Hall).
      assert (Hstored : stored = fst (index_entity vectorStore entity embedding i))
        by now rewrite Hstep.
      destruct embedding as [embedding0|e]; [|discriminate].
      assert (Hquad := index_entity_quad vectorStore entity embedding0 i synQuad).
      rewrite Hstep in Hquad. specialize (Hquad eq_refl).
      destruct Hquad as (Hs & Hp & Hg & Ho & entry & Hin & Htext & _).
      rewrite index_entity_store in Hstored.
      exists (synQuad :: more). split; [now rewrite Hadded, <- app_assoc|].
      split; [simpl; lia|]. split; [|split].
      * constructor; [|exact Hquads].
        split; [exact Hp|]. split; [exact Hg|]. split; [congruence|].
        split; apply Hkeep; rewrite Hstored, contains_after_store.
        -- rewrite Hs, String.eqb_refl. apply orb_true_r.
        -- replace (contains vectorStore (N3.object synQuad)) with true;
             [reflexivity|].
           symmetry. apply contains_In. rewrite <- Htext. now apply in_map.
      * intros text1 H. apply Hkeep. rewrite Hstored, contains_after_store, H.
        reflexivity.
      * intros Hok entity' embedding' [Heq | Hin'].
        -- injection Heq as <- _. apply Hkeep.
           rewrite Hstored, contains_after_store, String.eqb_refl.
           apply orb_true_r.
        -- now apply (Hall Hok entity' embedding').
    + destruct (IH _ _ _ _ _ Hrun) as (more & Hadded & Hlen & Hquads & Hkeep & Hall).
      assert (Hstored : stored = fst (index_entity vectorStore entity embedding i))
        by now rewrite Hstep.
      destruct embedding as [embedding0|e]; [|discriminate].
      rewrite index_entity_store in Hstored.
      exists more. split; [exact Hadded|]. split; [simpl; lia|].
      split; [exact Hquads|]. split.
      * intros text1 H. apply Hkeep. rewrite Hstored, contains_after_store, H.
        reflexivity.
      * intros Hok entity' embedding' [Heq | Hin'].
        -- injection Heq as <- _. apply Hkeep.
           rewrite Hstored, contains_after_store, String.eqb_refl.
           apply orb_true_r.
        -- now apply (Hall Hok entity' embedding').
    + injection Hrun as <- <- <-. exists []. rewrite app_nil_r.
      split; [reflexivity|]. split; [simpl; lia|]. split; [constructor|].
      split; [|discriminate].
      intros text1 H.
      replace stored with (fst (index_entity vectorStore entity embedding i))
        by now rewrite Hstep.
      now apply contains_index_entity.
Qed.

(** X10 on two entities, the second of which has an embedding of another
    length: the loop ends with the dimension error, and both entities are
    stored. *)
Lemma index_entities_effects_witness :
  index_entities [] [ ("A", Return [1; 0]%float); ("B", Return [1]%float) ] 0 []
    = (store (store [] "A" [1; 0]%float) "B" [1]%float, [],
       Throw dimension_mismatch)
  /\ exists more,
       [] = [] ++ more
       /\ List.length more <= 2
       /\ Forall (fun synQuad =>
                    N3.predicate synQuad = "is_synonym"
                    /\ N3.graph synQuad = chunk_graph 0
                    /\ N3.subject synQuad <> N3.object synQuad
                    /\ contains (store (store [] "A" [1; 0]%float) "B" [1]%float)
                         (N3.subject synQuad) = true
                    /\ contains (store (store [] "A" [1; 0]%float) "B" [1]%float)
                         (N3.object synQuad) = true) more
       /\ (forall text1, contains [] text1 = true ->
             contains (store (store [] "A" [1; 0]%float) "B" [1]%float) text1
             = true)
       /\ (Throw dimension_mismatch = Return tt ->
           forall entity embedding,
             In (entity, embedding)
                [ ("A", Return [1; 0]%float); ("B", Return [1]%float) ] ->
             contains (store (store [] "A" [1; 0]%float) "B" [1]%float) entity
             = true).
Proof.
  split; [reflexivity|].
  apply (index_entities_effects
           [ ("A", Return [1; 0]%float); ("B", Return [1]%float) ] 0 [] []).
  reflexivity.
Defined.

End IndexFacts.

(** ** Queries that find nothing, and chunks that are not there *)

Section HandOffFacts.
Import Prompts Query.

Variable rdfStore_match :
  option string -> option string -> option string -> list N3.Quad.
Variable chooseNextGraphNode : nat -> list GraphNode -> result (list GraphNode).

(** X11: a query without a seed.  When none of the texts nearest to the
    question is the subject of a fact (so too on an empty embedding store),
    [queryPDF] comes to the answer stage with no item at all, whatever the
    relevance oracle would have answered; and the context packed from no item
    is empty. *)
Theorem retrieval_without_seed (vectorStore : VectorStore.t) (question : string)
    (embedding0 : list float) (chunks : list string) (fuel : nat)
    (similarities : list VectorStore.Similarity) (max_characters : Z) :
  VectorStore.get_most_similar vectorStore question embedding0 10
    = Return similarities ->
  seed rdfStore_match similarities = [] ->
  retrieval rdfStore_match chooseNextGraphNode vectorStore question
    (Return embedding0) chunks (S fuel) = Some (Return [])
  /\ retrieval rdfStore_match chooseNextGraphNode [] question
       (Return embedding0) chunks (S fuel) = Some (Return [])
  /\ question_context [] max_characters = Return (EmptyString, []).
Proof.
  intros Hnear Hseed. split; [|split; reflexivity].
  unfold retrieval. cbn [bind]. rewrite Hnear, Hseed. reflexivity.
Qed.

Lemma build_context_app (items : list (string * JSInt)) (more : list QAInput)
    (max_characters : Z) :
  forall (context : string) (chunkIndices : list JSInt),
  build_context (map qa items ++ more) max_characters context chunkIndices =
  match build_context (map qa items) max_characters context chunkIndices with
  | Return (context', chunkIndices') =>
      if (List.length chunkIndices'
          =? List.length chunkIndices + List.length items)%nat
      then build_context more max_characters context' chunkIndices'
      else Return (context', chunkIndices')
  | Throw e => Throw e
  end.
Proof.
  induction items as [|item items IH]; intros context chunkIndices.
  - cbn [map app build_context List.length]. rewrite Nat.add_0_r.
    now rewrite Nat.eqb_refl.
  - cbn [map app build_context qa qa_chunk index List.length].
    destruct (Z.of_nat (String.length context)
              + Z.of_nat (String.length (fst item)) <=? max_characters)%Z.
    + rewrite IH.
      destruct (build_context (map qa items) max_characters _ _)
        as [[context' chunkIndices']|e]; [|reflexivity].
      rewrite length_app. cbn [List.length].
      now replace (List.length chunkIndices + 1 + List.length items)
        with (List.length chunkIndices + S (List.length items)) by lia.
    + replace (List.length chunkIndices
               =? List.length chunkIndices + S (List.length items))%nat
        with false; [reflexivity|].
      symmetry. apply Nat.eqb_neq. lia.
Qed.

(** X12: a chunk that is not there.  When the items before an item whose
    chunk is [undefined] all fit the budget, building the context throws a
    [TypeError]; when packing stops at one of them, the [undefined] chunk
    is never looked at and the context is the one packed so far. *)
Theorem question_context_undefined_chunk (items : list (string * JSInt))
    (index0 : JSInt) (rest : list QAInput) (max_characters : Z)
    (context : string) (chunkIndices : list JSInt) :
  question_context (map qa items) max_characters
    = Return (context, chunkIndices) ->
  question_context
    (map qa items ++ {| qa_chunk := None; index := index0 |} :: rest)
    max_characters
  = if (List.length chunkIndices =? List.length items)%nat
    then Throw (TypeError
                  "Cannot read properties of undefined (reading 'length')")
    else Return (context, chunkIndices).
Proof.
  unfold question_context. intros Hpacked.
  rewrite build_context_app, Hpacked. reflexivity.
Qed.

End HandOffFacts.

(** X11 on a store that holds a text while the graph holds no fact. *)
Lemma retrieval_without_seed_witness :
  Query.retrieval (N3.match_ []) Examples.whole_frontier Examples.radio_city
    "Where is Radio City?" (Return Examples.towards_x)
    Examples.one_chunk_document 1 = Some (Return [])
  /\ Query.retrieval (N3.match_ []) Examples.whole_frontier []
       "Where is Radio City?" (Return Examples.towards_x)
       Examples.one_chunk_document 1 = Some (Return [])
  /\ Prompts.question_context [] 20000 = Return (EmptyString, []).
Proof.
  apply (retrieval_without_seed (N3.match_ []) Examples.whole_frontier
           Examples.radio_city "Where is Radio City?" Examples.towards_x
           Examples.one_chunk_document 0
           [ {| VectorStore.sim_text := "RadioCity";
                VectorStore.similarity := 1 |} ] 20000);
    reflexivity.
Defined.

(** X12 on a document of one chunk and a fact of chunk 5: the item for the
    fact has no chunk, and the context cannot be built. *)
Lemma question_context_undefined_chunk_witness :
  Prompts.question_context
    (map Prompts.qa [ ("Radio City is in India.", Some 0%Z) ]
     ++ {| Prompts.qa_chunk := None; Prompts.index := Some 5%Z |} :: [])
    20000
  = (if (List.length [Some 0%Z] =? List.length [ ("Radio City is in India.", Some 0%Z) ])%nat
     then Throw (TypeError
                   "Cannot read properties of undefined (reading 'length')")
     else Return (Prompts.with_chunks EmptyString
                    [ ("Radio City is in India.", Some 0%Z) ], [Some 0%Z])).
Proof.
  apply (question_context_undefined_chunk
           [ ("Radio City is in India.", Some 0%Z) ] (Some 5%Z) [] 20000).
  reflexivity.
Defined.

(** ** The persisted graph, read back *)

Section RdfFacts.
Import Rdf.

Local Infix "+++" := String.append (right associativity, at level 60).

Lemma string_append_assoc (a b c : string) : (a +++ b) +++ c = a +++ b +++ c.
Proof. induction a as [|x a IH]; simpl; [reflexivity | now rewrite IH]. Qed.

Lemma string_append_nil_r (a : string) : a +++ EmptyString = a.
Proof. induction a as [|x a IH]; simpl; [reflexivity | now rewrite IH]. Qed.

Lemma all_in_append (class : ascii -> bool) (a b : string) :
  all_in class (a +++ b) = (all_in class a && all_in class b)%bool.
Proof.
  induction a as [|x a IH]; simpl; [reflexivity|].
  rewrite IH. now rewrite andb_assoc.
Qed.

Lemma span_run (class : ascii -> bool) (run : string) (c : ascii) (rest : string) :
  all_in class run = true -> class c = false ->
  span class (run +++ String c rest) = (run, String c rest).
Proof.
  intros Hrun Hc. induction run as [|x run IH]; simpl.
  - now rewrite Hc.
  - simpl in Hrun. apply andb_prop in Hrun. destruct Hrun as [Hx Hrun].
    now rewrite Hx, (IH Hrun).
Qed.

Lemma one_or_more_run (class : ascii -> bool) (run : string) (c : ascii)
    (rest : string) :
  run <> EmptyString -> all_in class run = true -> class c = false ->
  one_or_more class (run +++ String c rest) = Some (run, String c rest).
Proof.
  intros Hne Hrun Hc. unfold one_or_more. rewrite (span_run _ _ _ _ Hrun Hc).
  destruct run; [congruence | reflexivity].
Qed.

Lemma span_spec (class : ascii -> bool) (s : string) :
  s = fst (span class s) +++ snd (span class s)
  /\ all_in class (fst (span class s)) = true.
Proof.
  induction s as [|c s [IH1 IH2]]; simpl; [auto|].
  destruct (class c) eqn:Hc; [|auto].
  destruct (span class s) as [run rest]. simpl in *.
  split; [now rewrite <- IH1 | now rewrite Hc].
Qed.

Lemma one_or_more_spec (class : ascii -> bool) (s run rest : string) :
  one_or_more class s = Some (run, rest) ->
  s = run +++ rest /\ run <> EmptyString /\ all_in class run = true.
Proof.
  unfold one_or_more. pose proof (span_spec class s) as [Hs Hall].
  destruct (span class s) as [run' rest']. simpl in *.
  destruct run' as [|c run']; [discriminate|].
  intros H. injection H as <- <-. repeat split; [assumption | discriminate | assumption].
Qed.

Lemma expect_spec (c : ascii) (s s' : string) :
  expect c s = Some s' -> s = String c s'.
Proof.
  destruct s as [|c' s0]; simpl; [discriminate|].
  destruct (Ascii.eqb c' c) eqn:Hc; [|discriminate].
  apply Ascii.eqb_eq in Hc. intros H. injection H as <-. now subst.
Qed.

Lemma name_ok_spec (s : string) :
  name_ok s = true ->
  s <> EmptyString /\ all_in (other_than ">") s = true
  /\ all_in (other_than "010") s = true.
Proof.
  unfold name_ok. rewrite !andb_true_iff, negb_true_iff, String.eqb_neq. tauto.
Qed.

Lemma one_space (c : ascii) (rest : string) :
  is_whitespace c = false ->
  one_or_more is_whitespace (String " " (String c rest))
  = Some (String " " EmptyString, String c rest).
Proof.
  intros Hc. unfold one_or_more. cbn [span].
  change (is_whitespace " ") with true. cbv iota. now rewrite Hc.
Qed.

Local Ltac skip_space :=
  match goal with
  | |- context [one_or_more is_whitespace (String _ (String ?c ?r))] =>
      rewrite (one_space c r eq_refl)
  end.

Lemma match_here_line_of (q : N3.Quad) (tail : string) :
  writable q = true -> match_here (line_of q +++ tail) = Some q.
Proof.
  unfold writable. rewrite !andb_true_iff, negb_true_iff, String.eqb_neq.
  intros [[[[[Hs Hp] Hg] Ho] Hquote] _].
  apply name_ok_spec in Hs, Hp, Hg.
  destruct Hs as (Hs & Hs' & _), Hp as (Hp & Hp' & _), Hg as (Hg & Hg' & _).
  destruct q as [s p o g]. cbn [N3.subject N3.predicate N3.object N3.graph] in *.
  unfold line_of, match_here, VectorStore.dquote.
  cbn [N3.subject N3.predicate N3.object N3.graph].
  rewrite !string_append_assoc. cbn [String.append expect].
  rewrite !Ascii.eqb_refl.
  rewrite (one_or_more_run _ s ">" _ Hs Hs' eq_refl).
  cbn [expect]. rewrite Ascii.eqb_refl.
  skip_space.
  cbn [expect]. rewrite Ascii.eqb_refl.
  rewrite (one_or_more_run _ p ">" _ Hp Hp' eq_refl).
  cbn [expect]. rewrite Ascii.eqb_refl.
  skip_space.
  cbn [expect]. rewrite Ascii.eqb_refl.
  rewrite (one_or_more_run _ o "034" _ Ho Hquote eq_refl).
  do 4 (cbn [expect expect_text]; rewrite ?Ascii.eqb_refl).
  skip_space.
  cbn [expect]. rewrite Ascii.eqb_refl.
  rewrite (one_or_more_run _ g ">" _ Hg Hg' eq_refl).
  cbn [expect]. rewrite Ascii.eqb_refl.
  skip_space.
  cbn [expect]. rewrite Ascii.eqb_refl.
  reflexivity.
Qed.

Lemma match_line_of (q : N3.Quad) (tail : string) :
  writable q = true -> match_line (line_of q +++ tail) = Some q.
Proof.
  intros Hq. pose proof (match_here_line_of q tail Hq) as H.
  revert H. generalize (line_of q +++ tail). intros line H.
  destruct line; cbn [match_line]; now rewrite H.
Qed.

Lemma split_from_line (sep : ascii) (line rest : string) :
  forall piece : string,
  all_in (other_than sep) line = true ->
  split_from sep (line +++ String sep rest) piece
  = (piece +++ line) :: split_from sep rest EmptyString.
Proof.
  induction line as [|c line IH]; intros piece Hline; simpl.
  - now rewrite Ascii.eqb_refl, string_append_nil_r.
  - simpl in Hline. apply andb_prop in Hline. destruct Hline as [Hc Hline].
    unfold other_than in Hc. apply negb_true_iff in Hc. rewrite Hc.
    rewrite (IH _ Hline), string_append_assoc. reflexivity.
Qed.

Lemma line_of_has_no_line_feed (q : N3.Quad) :
  writable q = true -> all_in (other_than "010") (line_of q) = true.
Proof.
  unfold writable, name_ok. rewrite !andb_true_iff.
  intros [[[[[[[_ _] Hs] [[_ _] Hp]] [[_ _] Hg]] _] _] Ho].
  unfold line_of, VectorStore.dquote. rewrite !all_in_append, Hs, Hp, Hg, Ho.
  reflexivity.
Qed.

Lemma line_of_not_blank (q : N3.Quad) (tail : string) :
  not_blank (line_of q +++ tail) = true.
Proof. reflexivity. Qed.

Lemma quads_of_text_of (quads : list N3.Quad) :
  forallb writable quads = true -> quads_of_text (text_of quads) = quads.
Proof.
  unfold quads_of_text, split. induction quads as [|q quads IH]; intros Hall.
  - reflexivity.
  - simpl in Hall. apply andb_prop in Hall. destruct Hall as [Hq Hall].
    cbn [text_of]. unfold newline at 1.
    rewrite <- string_append_assoc.
    change (String "010" EmptyString +++ text_of quads)
      with (String "010" (text_of quads)).
    rewrite string_append_assoc.
    change (String "010" EmptyString +++ text_of quads)
      with (String "010" (text_of quads)).
    rewrite (split_from_line _ _ _ _ (line_of_has_no_line_feed q Hq)).
    cbn [String.append filter].
    rewrite <- (string_append_nil_r (line_of q)) at 1.
    rewrite line_of_not_blank. cbn [flat_map].
    rewrite <- (string_append_nil_r (line_of q)) at 1.
    rewrite (match_line_of q _ Hq). cbn [app]. f_equal. now apply IH.
Qed.

Lemma expect_text_suffix (class : ascii -> bool) (literal : string) :
  forall s s', expect_text literal s = Some s' ->
  all_in class s = true -> all_in class s' = true.
Proof.
  induction literal as [|c literal IH]; intros s s'; cbn [expect_text].
  - now intros [= <-].
  - destruct (expect c s) as [s0|] eqn:Hc; [|discriminate].
    apply expect_spec in Hc. subst s. intros Hrest Hall.
    simpl in Hall. apply andb_prop in Hall. now apply (IH s0 s').
Qed.

Local Ltac step_literal :=
  match goal with
  | H : expect ?c ?s = Some ?s', Hall : all_in ?class ?s = true |- _ =>
      apply expect_spec in H; subst s; cbn [all_in] in Hall;
      let Hc := fresh "Hc" in
      apply andb_prop in Hall; destruct Hall as [Hc Hall]
  end.

Local Ltac step_run :=
  match goal with
  | H : one_or_more ?run_class ?s = Some (?run, ?rest),
    Hall : all_in ?class ?s = true |- _ =>
      let Hne := fresh "Hne" in
      let Hin := fresh "Hin" in
      let Hrun := fresh "Hrun" in
      apply one_or_more_spec in H; destruct H as (-> & Hne & Hin);
      rewrite all_in_append in Hall; apply andb_prop in Hall;
      destruct Hall as [Hrun Hall]
  end.

Lemma match_here_sound (class : ascii -> bool) (s : string) (q : N3.Quad) :
  match_here s = Some q -> all_in class s = true ->
  (N3.subject q <> EmptyString /\ all_in (other_than ">") (N3.subject q) = true
   /\ all_in class (N3.subject q) = true)
  /\ (N3.predicate q <> EmptyString
      /\ all_in (other_than ">") (N3.predicate q) = true
      /\ all_in class (N3.predicate q) = true)
  /\ (N3.object q <> EmptyString
      /\ all_in (other_than "034") (N3.object q) = true
      /\ all_in class (N3.object q) = true)
  /\ (N3.graph q <> EmptyString /\ all_in (other_than ">") (N3.graph q) = true
      /\ all_in class (N3.graph q) = true).
Proof.
  unfold match_here. intros Hmatch Hall.
  destruct (expect "<" s) as [s1|] eqn:E1; [|discriminate]. step_literal.
  destruct (one_or_more (other_than ">") s1) as [[subject s2]|] eqn:E2;
    [|discriminate]. step_run.
  destruct (expect ">" s2) as [s3|] eqn:E3; [|discriminate]. step_literal.
  destruct (one_or_more is_whitespace s3) as [[ws1 s4]|] eqn:E4;
    [|discriminate]. step_run.
  destruct (expect "<" s4) as [s5|] eqn:E5; [|discriminate]. step_literal.
  destruct (one_or_more (other_than ">") s5) as [[predicate s6]|] eqn:E6;
    [|discriminate]. step_run.
  destruct (expect ">" s6) as [s7|] eqn:E7; [|discriminate]. step_literal.
  destruct (one_or_more is_whitespace s7) as [[ws2 s8]|] eqn:E8;
    [|discriminate]. step_run.
  destruct (expect "034" s8) as [s9|] eqn:E9; [|discriminate]. step_literal.
  destruct (one_or_more (other_than "034") s9) as [[object s10]|] eqn:E10;
    [|discriminate]. step_run.
  destruct (expect "034" s10) as [s11|] eqn:E11; [|discriminate]. step_literal.
  destruct (expect_text "@en" s11) as [s12|] eqn:E12; [|discriminate].
  pose proof (expect_text_suffix class _ _ _ E12 Hall) as Hall12.
  destruct (one_or_more is_whitespace s12) as [[ws3 s13]|] eqn:E13;
    [|discriminate].
  apply one_or_more_spec in E13. destruct E13 as (-> & _ & _).
  rewrite all_in_append in Hall12. apply andb_prop in Hall12.
  destruct Hall12 as [_ Hall13].
  destruct (expect "<" s13) as [s14|] eqn:E14; [|discriminate].
  apply expect_spec in E14. subst s13. cbn [all_in] in Hall13.
  apply andb_prop in Hall13. destruct Hall13 as [_ Hall14].
  destruct (one_or_more (other_than ">") s14) as [[graph s15]|] eqn:E15;
    [|discriminate].
  apply one_or_more_spec in E15. destruct E15 as (-> & Hgne & Hgin).
  rewrite all_in_append in Hall14. apply andb_prop in Hall14.
  destruct Hall14 as [Hgrun _].
  destruct (expect ">" s15) as [s16|]; [|discriminate].
  destruct (one_or_more is_whitespace s16) as [[ws4 s17]|]; [|discriminate].
  destruct (expect "." s17) as [s18|]; [|discriminate].
  injection Hmatch as <-. cbn [N3.subject N3.predicate N3.object N3.graph].
  repeat split; assumption.
Qed.

Lemma match_line_sound (class : ascii -> bool) (line : string) (q : N3.Quad) :
  match_line line = Some q -> all_in class line = true ->
  exists s, match_here s = Some q /\ all_in class s = true.
Proof.
  induction line as [|c line IH]; cbn [match_line].
  - destruct (match_here EmptyString) eqn:H; [|discriminate].
    intros [= <-] Hall. now exists EmptyString.
  - destruct (match_here (String c line)) eqn:H.
    + intros [= <-] Hall. now exists (String c line).
    + intros Hrest Hall. simpl in Hall. apply andb_prop in Hall.
      now apply IH.
Qed.

Lemma split_from_pieces (sep : ascii) (s : string) :
  forall piece line,
  all_in (other_than sep) piece = true ->
  In line (split_from sep s piece) ->
  all_in (other_than sep) line = true.
Proof.
  induction s as [|c s IH]; intros piece line Hpiece; cbn [split_from].
  - intros [<- | []]. exact Hpiece.
  - destruct (Ascii.eqb c sep) eqn:Hc.
    + intros [<- | Hin]; [exact Hpiece|]. now apply (IH EmptyString).
    + apply IH. rewrite all_in_append, Hpiece. cbn [all_in].
      unfold other_than. now rewrite Hc.
Qed.

Lemma quads_of_text_writable (rdfText : string) (q : N3.Quad) :
  In q (quads_of_text rdfText) -> writable q = true.
Proof.
  unfold quads_of_text. rewrite in_flat_map.
  intros (line & Hline & Hq). apply filter_In in Hline.
  destruct Hline as [Hline _].
  apply (split_from_pieces _ _ EmptyString line eq_refl) in Hline.
  destruct (match_line line) as [q'|] eqn:Hmatch; [|destruct Hq].
  destruct Hq as [<- | []].
  destruct (match_line_sound _ _ _ Hmatch Hline) as (s & Hhere & Hs).
  destruct (match_here_sound _ s q' Hhere Hs)
    as ((Hs1 & Hs2 & Hs3) & (Hp1 & Hp2 & Hp3) & (Ho1 & Ho2 & Ho3)
        & (Hg1 & Hg2 & Hg3)).
  unfold writable, name_ok.
  rewrite Hs2, Hs3, Hp2, Hp3, Ho2, Ho3, Hg2, Hg3.
  apply String.eqb_neq in Hs1, Hp1, Ho1, Hg1.
  now rewrite Hs1, Hp1, Ho1, Hg1.
Qed.

(** X13: the line format the loader documents, read back.  For facts whose
    terms that format can carry (none empty, none with a line feed, no [>] in
    a name, no double quote in the object) the text with one line
    [<subject> <predicate> "object"@en <graph> .] per fact is read by
    [loadRDFStoreFromText] as exactly these facts, in order. *)
Theorem quads_of_text_round_trip (quads : list N3.Quad) :
  forallb writable quads = true ->
  quads_of_text (text_of quads) = quads.
Proof. apply quads_of_text_of. Qed.

(** X14: what the loader lets through.  Whatever the text, every fact read
    from it has terms the line format can carry; lines that do not match are
    passed over, so writing the facts read from a text and reading them
    again gives the same facts. *)
Theorem quads_of_text_normal_form (rdfText : string) :
  (forall q, In q (quads_of_text rdfText) -> writable q = true)
  /\ quads_of_text (text_of (quads_of_text rdfText)) = quads_of_text rdfText.
Proof.
  split; [apply quads_of_text_writable|].
  apply quads_of_text_of. apply forallb_forall. apply quads_of_text_writable.
Qed.

End RdfFacts.

(** X13 on the two facts of one chunk. *)
Lemma quads_of_text_round_trip_witness :
  Rdf.quads_of_text (Rdf.text_of Examples.one_chunk) = Examples.one_chunk.
Proof. apply (quads_of_text_round_trip Examples.one_chunk). reflexivity. Defined.

Section CitationFacts.
Import Citations.
Local Infix "+++" := String.append (right associativity, at level 60).

Lemma read_digits_not_negative (radix : Z) (s : string) :
  forall acc z,
  (0 <= radix)%Z ->
  match acc with Some a => (0 <= a)%Z | None => True end ->
  read_digits radix s acc = Some z -> (0 <= z)%Z.
Proof.
  induction s as [|c s IH]; intros acc z Hradix Hacc; cbn [read_digits].
  - intros ->. exact Hacc.
  - destruct (digit_value c) as [d|] eqn:Hd; [|intros ->; exact Hacc].
    assert (Hd0 : (0 <= d)%Z).
    { unfold digit_value in Hd.
      repeat match type of Hd with
             | (if ?b then _ else _) = _ => destruct b
             end; try discriminate; injection Hd as <-; lia. }
    destruct (d <? radix)%Z; [|intros ->; exact Hacc].
    apply IH; [assumption|]. destruct acc as [a|]; [|assumption].
    simpl in Hacc. nia.
Qed.

Lemma trim_start_all_in (class : ascii -> bool) (s : string) :
  all_in class s = true -> all_in class (trim_start s) = true.
Proof.
  induction s as [|c s IH]; simpl; [auto|].
  intros H. destruct (is_whitespace c); [|exact H].
  apply andb_prop in H. now apply IH.
Qed.

Lemma trim_end_all_in (class : ascii -> bool) (s : string) :
  all_in class s = true -> all_in class (trim_end s) = true.
Proof.
  induction s as [|c s IH]; simpl; [auto|].
  intros H. apply andb_prop in H as [Hc Hs]. specialize (IH Hs).
  destruct (trim_end s) as [|c' kept].
  - destruct (is_whitespace c); simpl; [reflexivity|now rewrite Hc].
  - cbn [all_in] in IH |- *. now rewrite Hc.
Qed.

(** Without a minus sign in the text, [parseInt] gives no negative
    number. *)
Lemma parseInt_string_not_negative (input : string) (z : Z) :
  all_in (other_than "-") input = true ->
  parseInt_string input = Some z -> (0 <= z)%Z.
Proof.
  intros Hall. apply (trim_start_all_in _ _) in Hall.
  unfold parseInt_string. destruct (trim_start input) as [|c s].
  - discriminate.
  - destruct c as [[] [] [] [] [] [] [] []];
      cbn [all_in other_than Ascii.eqb Bool.eqb negb andb] in Hall;
      try discriminate;
      cbv beta iota;
      repeat match goal with
             | |- context [let (_, _) := ?p in _] =>
                 destruct p as [radix s0] eqn:Hradix
             end;
      intros Hread.
    all: try (destruct (read_digits _ _ None) as [n|] eqn:Hn; [|discriminate];
              injection Hread as <-).
    all: try (eapply read_digits_not_negative; [| |exact Hn]; [lia|exact I]).
    all: assert (0 <= radix)%Z
      by (clear - Hradix;
          repeat match type of Hradix with
                 | context [match ?x with _ => _ end] => destruct x
                 end;
          injection Hradix as <- _; lia).
    all: now apply (read_digits_not_negative radix s0 None n).
Qed.

Lemma split_from_all_in (class : ascii -> bool) (sep : ascii) (s : string) :
  forall piece part,
  all_in class s = true -> all_in class piece = true ->
  In part (split_from sep s piece) -> all_in class part = true.
Proof.
  induction s as [|c s IH]; intros piece part Hs Hpiece; cbn [split_from].
  - intros [<-|[]]. exact Hpiece.
  - cbn [all_in] in Hs. apply andb_prop in Hs as [Hc Hs].
    destruct (Ascii.eqb c sep).
    + intros [<-|Hin]; [exact Hpiece|]. now apply (IH EmptyString).
    + apply IH; [exact Hs|]. rewrite all_in_append, Hpiece. cbn. now rewrite Hc.
Qed.


Lemma all_in_impl (class class' : ascii -> bool) (s : string) :
  (forall c, class c = true -> class' c = true) ->
  all_in class s = true -> all_in class' s = true.
Proof.
  intros Himpl. induction s as [|c s IH]; cbn [all_in]; [auto|].
  intros H. apply andb_prop in H as [Hc Hs]. now rewrite (Himpl c Hc), IH.
Qed.

Lemma in_list_no_minus (c : ascii) :
  in_list c = true -> other_than "-" c = true.
Proof. destruct c as [[] [] [] [] [] [] [] []]; vm_compute; congruence. Qed.

Lemma expect_text_spec (literal : string) :
  forall s s', expect_text literal s = Some s' -> s = literal +++ s'.
Proof.
  induction literal as [|c literal IH]; intros s s'; cbn [expect_text].
  - now intros [= ->].
  - destruct (expect c s) as [s1|] eqn:Hc; [|discriminate].
    apply expect_spec in Hc as ->. intros H. now rewrite (IH _ _ H).
Qed.

(** A match of the pattern: its group holds digits, commas and whitespace
    only, and the match is not empty. *)
Lemma match_here_spec (s numbers rest : string) :
  match_here s = Some (numbers, rest) ->
  all_in in_list numbers = true
  /\ String.length rest < String.length s.
Proof.
  unfold match_here.
  destruct (expect_text "{chunk_indices:" s) as [s1|] eqn:H1; [|discriminate].
  apply expect_text_spec in H1 as ->.
  pose proof (span_spec is_whitespace s1) as [Hws _].
  destruct (span is_whitespace s1) as [ws s2]. cbn [fst snd] in Hws. subst s1.
  destruct (expect "[" s2) as [s3|] eqn:H3; [|discriminate].
  apply expect_spec in H3 as ->.
  destruct (one_or_more in_list s3) as [[group s4]|] eqn:H4; [|discriminate].
  apply one_or_more_spec in H4 as (-> & _ & Hgroup).
  destruct (expect "]" s4) as [s5|] eqn:H5; [|discriminate].
  apply expect_spec in H5 as ->.
  destruct (expect "}" s5) as [s6|] eqn:H6; [|discriminate].
  apply expect_spec in H6 as ->.
  intros [= <- <-]. split; [exact Hgroup|].
  rewrite !length_append. cbn [String.length]. rewrite !length_append.
  cbn [String.length]. lia.
Qed.

Lemma matchAll_from_groups (fuel : nat) :
  forall s group,
  In group (matchAll_from fuel s) -> all_in in_list group = true.
Proof.
  induction fuel as [|fuel IH]; intros s group; cbn [matchAll_from]; [intros []|].
  destruct (match_here s) as [[numbers rest]|] eqn:Hm.
  - intros [<-|Hin]; [now apply match_here_spec in Hm | now apply (IH rest)].
  - destruct s as [|c s']; [intros []|apply IH].
Qed.

(** The steps of [matchAll] never outrun the text: more fuel than its
    length changes nothing. *)
Lemma matchAll_from_enough (fuel : nat) :
  forall fuel' s,
  String.length s < fuel -> String.length s < fuel' ->
  matchAll_from fuel s = matchAll_from fuel' s.
Proof.
  induction fuel as [|fuel IH]; intros fuel' s Hfuel Hfuel'; [lia|].
  destruct fuel' as [|fuel']; [lia|]. cbn [matchAll_from].
  destruct (match_here s) as [[numbers rest]|] eqn:Hm.
  - apply match_here_spec in Hm as [_ Hlen]. f_equal. apply IH; lia.
  - destruct s as [|c s']; [reflexivity|]. cbn [String.length] in *.
    apply IH; lia.
Qed.

Lemma matchAll_from_no_brace (fuel : nat) :
  forall s, all_in (other_than "{") s = true -> matchAll_from fuel s = [].
Proof.
  induction fuel as [|fuel IH]; intros s Hs; cbn [matchAll_from]; [reflexivity|].
  destruct s as [|c s']; [reflexivity|].
  cbn [all_in] in Hs. apply andb_prop in Hs as [Hc Hs].
  unfold match_here. cbn [expect_text expect].
  unfold other_than in Hc. destruct (Ascii.eqb c "{"); [discriminate|].
  now apply IH.
Qed.

Lemma add_In (indices : list Z) (num n : Z) :
  In n (add indices num) <-> In n indices \/ n = num.
Proof.
  unfold add. destruct (existsb (Z.eqb num) indices) eqn:Hmem.
  - apply existsb_exists in Hmem as (m & Hin & Heq).
    apply Z.eqb_eq in Heq as <-. split; [now left|]. now intros [H| ->].
  - rewrite in_app_iff. cbn. intuition.
Qed.

Lemma add_NoDup (indices : list Z) (num : Z) :
  NoDup indices -> NoDup (add indices num).
Proof.
  intros Hnd. unfold add. destruct (existsb (Z.eqb num) indices) eqn:Hmem;
    [exact Hnd|].
  apply NoDup_app; [exact Hnd | repeat constructor; intros [] |].
  intros n Hin [<-|[]].
  assert (existsb (Z.eqb num) indices = true) as Habs
    by (apply existsb_exists; exists num; split; [exact Hin | apply Z.eqb_refl]).
  congruence.
Qed.

Lemma add_all_spec (numbers : list Z) :
  forall indices,
  NoDup indices ->
  NoDup (fold_left add numbers indices)
  /\ (forall n, In n (fold_left add numbers indices)
                <-> In n indices \/ In n numbers).
Proof.
  induction numbers as [|num numbers IH]; intros indices Hnd; cbn [fold_left].
  - split; [exact Hnd|]. cbn. intuition.
  - destruct (IH (add indices num) (add_NoDup _ _ Hnd)) as [Hnd' Hin].
    split; [exact Hnd'|]. intros n. rewrite Hin, add_In. cbn. intuition.
Qed.

Lemma add_groups_spec (groups : list string) :
  forall indices,
  NoDup indices ->
  NoDup (fold_left (fun indices group => fold_left add (numbers_of group) indices)
           groups indices)
  /\ (forall n,
        In n (fold_left
                (fun indices group => fold_left add (numbers_of group) indices)
                groups indices)
        <-> In n indices
            \/ exists group, In group groups /\ In n (numbers_of group)).
Proof.
  induction groups as [|group groups IH]; intros indices Hnd; cbn [fold_left].
  - split; [exact Hnd|]. intros n. split; [now left|].
    now intros [H|(group & [] & _)].
  - destruct (add_all_spec (numbers_of group) indices Hnd) as [Hnd1 Hin1].
    destruct (IH _ Hnd1) as [Hnd' Hin]. split; [exact Hnd'|].
    intros n. rewrite Hin, Hin1. split.
    + intros [[H|H]|(g & Hg & Hn)]; [now left | right | right].
      * exists group. split; [now left | exact H].
      * exists g. split; [now right | exact Hn].
    + intros [H|(g & [<-|Hg] & Hn)]; [now left; left | now left; right |].
      right. now exists g.
Qed.

Lemma numbers_of_not_negative (group : string) (n : Z) :
  all_in in_list group = true -> In n (numbers_of group) -> (0 <= n)%Z.
Proof.
  intros Hgroup Hin. unfold numbers_of in Hin.
  apply in_flat_map in Hin as (num & Hnum & Hn).
  destruct (parseInt_string (trim num)) as [z|] eqn:Hz; [|destruct Hn].
  destruct Hn as [<-|[]].
  apply (parseInt_string_not_negative (trim num)); [|exact Hz].
  apply (all_in_impl in_list); [exact in_list_no_minus|].
  unfold trim. apply trim_end_all_in, trim_start_all_in.
  apply (split_from_all_in in_list "," group EmptyString num);
    [exact Hgroup | reflexivity | exact Hnum].
Qed.

(** X15: the indices cited in an answer.  [extractChunkIndices] returns
    pairwise distinct numbers, each read by [parseInt] from a comma-separated
    piece of the group of some match of the pattern and each an integer that
    is not negative (a group holds digits, commas and whitespace only, so no
    sign); a text without an opening brace cites nothing.  The scan needs no
    more steps than the text has characters. *)
Theorem extractChunkIndices_spec (text : string) :
  NoDup (extractChunkIndices text)
  /\ (forall n, In n (extractChunkIndices text)
                <-> exists group, In group (matchAll text)
                                  /\ In n (numbers_of group))
  /\ (forall n, In n (extractChunkIndices text) -> (0 <= n)%Z)
  /\ (all_in (other_than "{") text = true -> extractChunkIndices text = [])
  /\ (forall fuel, String.length text < fuel ->
                   matchAll_from fuel text = matchAll text).
Proof.
  unfold extractChunkIndices.
  destruct (add_groups_spec (matchAll text) [] (NoDup_nil Z)) as [Hnd Hin].
  assert (Hgroups : forall n,
            In n (fold_left
                    (fun indices group => fold_left add (numbers_of group) indices)
                    (matchAll text) [])
            <-> exists group, In group (matchAll text) /\ In n (numbers_of group)).
  { intros n. rewrite Hin. split; [now intros [[]|H] | now right]. }
  split; [exact Hnd|]. split; [exact Hgroups|]. split; [|split].
  - intros n Hn. apply Hgroups in Hn as (group & Hgroup & Hn).
    apply (numbers_of_not_negative group); [|exact Hn].
    now apply (matchAll_from_groups (S (String.length text)) text).
  - intros Hno. unfold matchAll. now rewrite matchAll_from_no_brace.
  - intros fuel Hfuel. unfold matchAll. apply matchAll_from_enough; lia.
Qed.

(** The answer the prompt of [llm_do_question_answer] gives as its
    example. *)
Example extractChunkIndices_of_prompt_example :
  extractChunkIndices
    "The cat is black. {chunk_indices: [0,2]} It likes to play with yarn. {chunk_indices: [1]}"
  = [0; 2; 1]%Z.
Proof. reflexivity. Qed.

(** Pieces that are no numbers are dropped, a piece is read up to its first
    character that is no digit, and an index cited twice is kept once. *)
Example extractChunkIndices_of_odd_lists :
  extractChunkIndices
    "{chunk_indices: [x,y,z]} {chunk_indices:[ , 1 2,3]} {chunk_indices: [03, 1]}"
  = [1; 3]%Z.
Proof. reflexivity. Qed.

End CitationFacts.

Section InitialPassFacts.
Import InitialPass.
Variable ChunkAnalysis : Type.
Variable analyzeChunk : string -> Z -> result ChunkAnalysis.
Variable first_rejected : list JSError -> JSError.

Lemma map_indexed_length {A B : Type} (f : A -> Z -> B) (l : list A) :
  forall index, List.length (map_indexed f l index) = List.length l.
Proof. induction l as [|x l IH]; intros index; simpl; [reflexivity|now rewrite IH]. Qed.

Lemma map_indexed_ext {A B : Type} (f g : A -> Z -> B) (l : list A) :
  forall index index',
  (forall x j, f x (index + j)%Z = g x (index' + j)%Z) ->
  map_indexed f l index = map_indexed g l index'.
Proof.
  induction l as [|x l IH]; intros index index' Hfg; simpl; [reflexivity|].
  f_equal.
  - specialize (Hfg x 0%Z). now rewrite !Z.add_0_r in Hfg.
  - apply IH. intros y j. specialize (Hfg y (1 + j)%Z).
    now rewrite !Z.add_assoc in Hfg.
Qed.

Lemma map_indexed_app {A B : Type} (f : A -> Z -> B) (l1 l2 : list A) :
  forall index,
  map_indexed f (l1 ++ l2) index
  = map_indexed f l1 index
    ++ map_indexed f l2 (index + Z.of_nat (List.length l1))%Z.
Proof.
  induction l1 as [|x l1 IH]; intros index.
  - cbn. now rewrite Z.add_0_r.
  - cbn [List.app map_indexed List.length]. rewrite IH. do 3 f_equal. lia.
Qed.

Lemma map_indexed_indices {A : Type} (l : list A) :
  forall k : nat,
  map_indexed (fun _ j => j) l (Z.of_nat k)
  = map Z.of_nat (seq k (List.length l)).
Proof.
  induction l as [|x l IH]; intros k; cbn [map_indexed List.length seq map];
    [reflexivity|].
  f_equal. rewrite <- IH. f_equal. lia.
Qed.

Lemma rejected_app {A : Type} (l1 l2 : list (result A)) :
  rejected (l1 ++ l2) = rejected l1 ++ rejected l2.
Proof.
  induction l1 as [|[a|e] l1 IH]; cbn; [reflexivity|exact IH|now rewrite IH].
Qed.

Lemma fulfilled_app {A : Type} (l1 l2 : list (result A)) :
  fulfilled (l1 ++ l2) = fulfilled l1 ++ fulfilled l2.
Proof.
  induction l1 as [|[a|e] l1 IH]; cbn; [reflexivity|now rewrite IH|exact IH].
Qed.

(** A batch that starts inside the array, for a batch size of at least
    one. *)
Lemma slice_batch {A : Type} (l : list A) (k size : nat) :
  k < List.length l ->
  slice l (Z.of_nat k) (Z.of_nat k + Z.of_nat size) = firstn size (skipn k l).
Proof.
  intros Hk. unfold slice, clamp.
  destruct (Z.ltb_spec (Z.of_nat k) 0); [lia|].
  destruct (Z.ltb_spec (Z.of_nat k + Z.of_nat size) 0); [lia|].
  rewrite Nat2Z.id. replace (Nat.min k (List.length l)) with k by lia.
  replace (Z.of_nat k + Z.of_nat size)%Z with (Z.of_nat (k + size)) by lia.
  rewrite Nat2Z.id.
  destruct (Nat.le_ge_cases (k + size) (List.length l)) as [Hle|Hge].
  - replace (Nat.min (k + size) (List.length l) - k) with size by lia.
    reflexivity.
  - replace (Nat.min (k + size) (List.length l) - k)
      with (List.length l - k) by lia.
    rewrite <- (length_skipn k l).
    rewrite firstn_all. symmetry. apply firstn_all2.
    rewrite length_skipn. lia.
Qed.

Section Loop.
Variable chunks : list string.
Variable size : nat.
Hypothesis size_positive : 1 <= size.
Hypothesis first_rejected_In :
  forall e errors, In (first_rejected (e :: errors)) (e :: errors).

Local Notation "'outs' k" :=
  (map_indexed analyzeChunk (skipn k chunks) (Z.of_nat k)) (at level 10).

Lemma for_batches_spec (fuel : nat) :
  forall (k : nat) (analyses : list ChunkAnalysis) (calls : list Z),
  List.length chunks - k < fuel ->
  (rejected (outs k) = [] ->
     for_batches analyzeChunk first_rejected fuel chunks (Z.of_nat size)
       (Z.of_nat k) analyses calls
     = Some (Return (analyses ++ fulfilled (outs k)),
             calls ++ map Z.of_nat (seq k (List.length chunks - k))))
  /\ (rejected (outs k) <> [] ->
      exists (batches : nat) (e : JSError),
        batches * size < List.length chunks - k
        /\ rejected (firstn (batches * size) (outs k)) = []
        /\ In e (rejected (firstn size (skipn (batches * size) (outs k))))
        /\ for_batches analyzeChunk first_rejected fuel chunks (Z.of_nat size)
             (Z.of_nat k) analyses calls
           = Some (Throw e,
                   calls ++ map Z.of_nat
                     (seq k (Nat.min (batches * size + size)
                               (List.length chunks - k))))).
Proof.
  induction fuel as [|fuel IH]; intros k analyses calls Hfuel; [lia|].
  cbn [for_batches].
  destruct (Z.ltb_spec (Z.of_nat k) (Z.of_nat (List.length chunks))) as [Hk|Hk].
  - apply Nat2Z.inj_lt in Hk.
    rewrite (slice_batch chunks k size Hk).
    set (batch := firstn size (skipn k chunks)).
    assert (Hbatch : skipn k chunks = batch ++ skipn (k + size) chunks).
    { unfold batch. rewrite Nat.add_comm, <- skipn_skipn.
      symmetry. apply firstn_skipn. }
    assert (Hlen : List.length batch = Nat.min size (List.length chunks - k)).
    { unfold batch. now rewrite length_firstn, length_skipn. }
    assert (Hpromises :
              map_indexed
                (fun chunk batchIndex => analyzeChunk chunk (Z.of_nat k + batchIndex)%Z)
                batch 0
              = map_indexed analyzeChunk batch (Z.of_nat k)).
    { apply map_indexed_ext. intros x j. f_equal; lia. }
    assert (Hcalls :
              map_indexed (fun (_ : string) batchIndex => (Z.of_nat k + batchIndex)%Z)
                batch 0
              = map Z.of_nat (seq k (List.length batch))).
    { rewrite <- map_indexed_indices. apply map_indexed_ext. intros x j. lia. }
    rewrite Hpromises, Hcalls.
    assert (Houts : outs k
                    = map_indexed analyzeChunk batch (Z.of_nat k)
                      ++ outs (k + size)).
    { rewrite Hbatch at 1. rewrite map_indexed_app. f_equal.
      destruct (Nat.le_ge_cases size (List.length chunks - k)) as [Hle|Hge].
      - f_equal. rewrite Hlen. lia.
      - now rewrite (skipn_all2 chunks) by lia. }
    assert (Hrest : List.length chunks - k <= size -> outs (k + size) = []).
    { intros Hle. now rewrite (skipn_all2 chunks) by lia. }
    rewrite <- Nat2Z.inj_add.
    unfold Promise_all.
    destruct (rejected (map_indexed analyzeChunk batch (Z.of_nat k)))
      as [|e errors] eqn:Hrej.
    + destruct (IH (k + size)
                  (analyses ++ fulfilled (map_indexed analyzeChunk batch (Z.of_nat k)))
                  (calls ++ map Z.of_nat (seq k (List.length batch)))
                  ltac:(lia)) as [IHok IHfail].
      rewrite Houts, rejected_app, fulfilled_app, Hrej. cbn [List.app].
      split.
      * intros Hr. rewrite (IHok Hr), <- !app_assoc, <- map_app.
        do 4 f_equal. rewrite Hlen.
        destruct (Nat.le_ge_cases size (List.length chunks - k)) as [Hle|Hge].
        -- rewrite Nat.min_l by exact Hle. rewrite <- seq_app. f_equal. lia.
        -- rewrite Nat.min_r by exact Hge.
           replace (List.length chunks - (k + size)) with 0 by lia.
           cbn [seq]. apply app_nil_r.
      * intros Hr. destruct (IHfail Hr) as (batches & e & Hb & Hpre & Hin & Heq).
        assert (Hsize : List.length (map_indexed analyzeChunk batch (Z.of_nat k))
                        = size)
          by (rewrite map_indexed_length, Hlen; lia).
        exists (S batches), e. cbn [Nat.mul].
        split; [lia|]. split; [|split].
        -- rewrite <- Hsize at 1. rewrite firstn_app_2, rejected_app, Hrej.
           exact Hpre.
        -- rewrite <- Hsize at 2. rewrite Nat.add_comm, <- skipn_skipn.
           rewrite skipn_app, skipn_all, Nat.sub_diag. exact Hin.
        -- rewrite Heq, <- !app_assoc, <- map_app. do 4 f_equal.
           rewrite Hlen, Nat.min_l by lia.
           rewrite <- seq_app. f_equal. lia.
    + split; [rewrite Houts, rejected_app, Hrej; discriminate|]. intros _.
      exists 0, (first_rejected (e :: errors)). cbn [Nat.mul Nat.add skipn firstn].
      split; [lia|]. split; [reflexivity|]. split.
      * rewrite Houts.
        destruct (Nat.le_ge_cases size (List.length chunks - k)) as [Hle|Hge].
        -- rewrite firstn_app, firstn_all2
             by (rewrite map_indexed_length, Hlen; lia).
           rewrite map_indexed_length, Hlen, Nat.min_l, Nat.sub_diag by exact Hle.
           cbn [firstn]. rewrite app_nil_r, Hrej. apply first_rejected_In.
        -- rewrite (Hrest Hge), app_nil_r, firstn_all2
             by (rewrite map_indexed_length, Hlen; lia).
           rewrite Hrej. apply first_rejected_In.
      * now rewrite Hlen.
  - apply Nat2Z.inj_le in Hk. rewrite (skipn_all2 chunks) by exact Hk.
    cbn [map_indexed rejected fulfilled]. split; [|congruence]. intros _.
    replace (List.length chunks - k) with 0 by lia. cbn [seq map].
    now rewrite !app_nil_r.
Qed.
End Loop.

Lemma fulfilled_all {A : Type} (settled : list (result A)) :
  rejected settled = [] -> map Return (fulfilled settled) = settled.
Proof.
  induction settled as [|[a|e] settled IH]; cbn; [reflexivity| |discriminate].
  intros H. now rewrite (IH H).
Qed.

(** X16: the batches of [llm_do_initial_pass].  For a batch size of at
    least one the loop ends within one pass per chunk.  When every analysis
    succeeds, each chunk was requested once, in order and under its own
    index, and the analyses come back one per chunk in chunk order, whatever
    the batch size.  When some analysis fails, the chunks of the batches up
    to and including the first batch with a failure were requested and no
    chunk after it; every batch before it succeeded, and the error thrown
    wraps an error of that batch as [OpenAI API error: ...]. *)
Theorem llm_do_initial_pass_batches (chunks : list string) (batchSize : Z)
    (fuel : nat) :
  (1 <= batchSize)%Z ->
  List.length chunks < fuel ->
  (forall e errors, In (first_rejected (e :: errors)) (e :: errors)) ->
  (rejected (outcomes analyzeChunk chunks) = [] ->
     llm_do_initial_pass analyzeChunk first_rejected chunks batchSize fuel
     = Some (Return (fulfilled (outcomes analyzeChunk chunks)),
             map Z.of_nat (seq 0 (List.length chunks)))
     /\ map Return (fulfilled (outcomes analyzeChunk chunks))
        = outcomes analyzeChunk chunks)
  /\ (rejected (outcomes analyzeChunk chunks) <> [] ->
      exists (batches : nat) (e : JSError),
        batches * Z.to_nat batchSize < List.length chunks
        /\ rejected (firstn (batches * Z.to_nat batchSize)
                       (outcomes analyzeChunk chunks)) = []
        /\ In e (rejected
                   (firstn (Z.to_nat batchSize)
                      (skipn (batches * Z.to_nat batchSize)
                         (outcomes analyzeChunk chunks))))
        /\ llm_do_initial_pass analyzeChunk first_rejected chunks batchSize fuel
           = Some (Throw (api_error e),
                   map Z.of_nat
                     (seq 0 (Nat.min (batches * Z.to_nat batchSize
                                      + Z.to_nat batchSize)
                               (List.length chunks))))).
Proof.
  intros Hsize Hfuel Hfirst.
  destruct (for_batches_spec chunks (Z.to_nat batchSize) ltac:(lia) Hfirst
              fuel 0 [] [] ltac:(lia)) as [Hok Hfail].
  rewrite Z2Nat.id, Nat.sub_0_r in Hok, Hfail by lia.
  cbn [skipn Z.of_nat List.app] in Hok, Hfail.
  unfold llm_do_initial_pass, outcomes. split.
  - intros Hr. rewrite (Hok Hr). split; [reflexivity | now apply fulfilled_all].
  - intros Hr. destruct (Hfail Hr) as (batches & e & Hb & Hpre & Hin & Heq).
    exists batches, e. rewrite Heq. auto.
Qed.

Lemma for_batches_without_progress (chunks : list string) (batchSize : Z)
    (fuel : nat) :
  forall (i : Z) (analyses : list ChunkAnalysis) (calls : list Z),
  chunks <> [] -> (batchSize <= 0)%Z -> (i <= 0)%Z ->
  (forall all calls',
     for_batches analyzeChunk first_rejected fuel chunks batchSize i analyses calls
     <> Some (Return all, calls'))
  /\ (batchSize = 0%Z -> i = 0%Z ->
      for_batches analyzeChunk first_rejected fuel chunks batchSize i analyses calls
      = None).
Proof.
  induction fuel as [|fuel IH]; intros i analyses calls Hchunks Hsize Hi;
    cbn [for_batches]; [split; [discriminate|reflexivity]|].
  assert (Hlen : (i <? Z.of_nat (List.length chunks))%Z = true).
  { apply Z.ltb_lt. destruct chunks; [congruence|]. cbn [List.length]. lia. }
  rewrite Hlen. split.
  - intros all calls'.
    destruct (Promise_all _ _) as [batchResults|error]; [|discriminate].
    apply IH; [exact Hchunks | exact Hsize | lia].
  - intros -> ->. cbn [Z.add]. unfold slice, clamp. cbn [Z.ltb Z.compare Z.to_nat].
    rewrite Nat.sub_diag. cbn [Nat.min firstn map_indexed].
    unfold Promise_all. cbn [rejected fulfilled].
    apply IH; [exact Hchunks | lia | lia | reflexivity | reflexivity].
Qed.

(** X17: a batch size that makes no progress.  On a document with at least
    one chunk, a batch size of zero or less never lets [llm_do_initial_pass]
    return its analyses: the index never passes the end of the chunks.  With
    a batch size of zero every batch is empty and the loop runs on for
    ever. *)
Theorem llm_do_initial_pass_without_progress (chunks : list string)
    (batchSize : Z) (fuel : nat) :
  chunks <> [] -> (batchSize <= 0)%Z ->
  (forall analyses calls,
     llm_do_initial_pass analyzeChunk first_rejected chunks batchSize fuel
     <> Some (Return analyses, calls))
  /\ (batchSize = 0%Z ->
      llm_do_initial_pass analyzeChunk first_rejected chunks batchSize fuel
      = None).
Proof.
  intros Hchunks Hsize.
  destruct (for_batches_without_progress chunks batchSize fuel 0 [] []
              Hchunks Hsize ltac:(lia)) as [Hnever Hnone].
  unfold llm_do_initial_pass. split.
  - intros analyses calls.
    destruct (for_batches _ _ _ _ _ _ _ _) as [[[all|error] calls']|] eqn:Hloop;
      [|discriminate|discriminate].
    now destruct (Hnever all calls').
  - intros Hzero. now rewrite (Hnone Hzero eq_refl).
Qed.

End InitialPassFacts.

(** X16 on five chunks in batches of two, the third chunk failing: the
    fourth chunk is requested with it, the fifth never. *)
Lemma llm_do_initial_pass_batches_witness :
  InitialPass.llm_do_initial_pass Examples.analyze_nonempty Examples.first_listed
    [ "a"; "b"; EmptyString; "d"; "e" ] 2 6
  = Some (Throw (Error "OpenAI API error: Error: empty chunk"), [0; 1; 2; 3]%Z)
  /\ InitialPass.llm_do_initial_pass Examples.analyze_nonempty
       Examples.first_listed [ "a"; "b"; "c" ] 2 4
     = Some (Return [0; 1; 2]%Z, [0; 1; 2]%Z).
Proof.
  split; [reflexivity|].
  apply (llm_do_initial_pass_batches Z Examples.analyze_nonempty
           Examples.first_listed [ "a"; "b"; "c" ] 2 4);
    [lia | cbn; lia | intros e errors; now left | reflexivity].
Defined.

(** X17 on one chunk and a batch size of zero: no fuel is enough. *)
Lemma llm_do_initial_pass_without_progress_witness :
  InitialPass.llm_do_initial_pass Examples.analyze_nonempty Examples.first_listed
    [ "a" ] 0 1000 = None.
Proof.
  apply (llm_do_initial_pass_without_progress Z Examples.analyze_nonempty
           Examples.first_listed [ "a" ] 0 1000); [discriminate | lia | reflexivity].
Defined.

Section ChunkingFacts.
Import Chunking.
Local Infix "+++" := String.append (right associativity, at level 60).

Lemma trim_start_length (s : string) :
  String.length (trim_start s) <= String.length s.
Proof.
  induction s as [|c s IH]; cbn [trim_start String.length]; [lia|].
  destruct (is_whitespace c); cbn [String.length]; lia.
Qed.

Lemma trim_end_length (s : string) :
  String.length (trim_end s) <= String.length s.
Proof.
  induction s as [|c s IH]; cbn [trim_end String.length]; [lia|].
  destruct (trim_end s) as [|c' kept].
  - destruct (is_whitespace c); cbn [String.length]; lia.
  - cbn [String.length] in *. lia.
Qed.

Lemma trim_length (s : string) : String.length (trim s) <= String.length s.
Proof.
  unfold trim. pose proof (trim_end_length (trim_start s)).
  pose proof (trim_start_length s). lia.
Qed.

Section Bound.
Variable max_chunk_length : Z.

Local Notation "'bounded'" := (bounded_or_word max_chunk_length).

Lemma trim_bounded_or_word (s : string) :
  bounded s -> bounded (trim s).
Proof.
  unfold bounded_or_word, fits. intros [H|H].
  - left. apply Z.leb_le in H. apply Z.leb_le. pose proof (trim_length s). lia.
  - right. unfold trim. now apply trim_end_all_in, trim_start_all_in.
Qed.

Lemma push_current_bounded (finalChunks : list string) (currentChunk : string) :
  Forall bounded finalChunks -> bounded currentChunk ->
  Forall bounded (push_current finalChunks currentChunk).
Proof.
  intros Hfinal Hcurrent. unfold push_current.
  destruct (currentChunk =? EmptyString); [exact Hfinal|].
  apply Forall_app. split; [exact Hfinal|].
  constructor; [now apply trim_bounded_or_word | constructor].
Qed.

Lemma add_word_bounded (state : list string * string) (word : string) :
  Forall bounded (fst state) -> bounded (snd state) ->
  all_in (other_than " ") word = true ->
  Forall bounded (fst (add_word max_chunk_length state word))
  /\ bounded (snd (add_word max_chunk_length state word)).
Proof.
  destruct state as [finalChunks currentChunk]. cbn [fst snd].
  intros Hfinal Hcurrent Hword. unfold add_word.
  destruct (fits (currentChunk +++ " " +++ word) max_chunk_length) eqn:Hfits;
    cbn [fst snd].
  - split; [exact Hfinal|]. left. unfold fits in *.
    apply Z.leb_le in Hfits. apply Z.leb_le.
    rewrite !length_append in *. cbn [String.length] in Hfits.
    destruct (currentChunk =? EmptyString); cbn [String.length]; lia.
  - split; [now apply push_current_bounded | now right].
Qed.

Lemma add_words_bounded (words : list string) :
  forall state,
  Forall bounded (fst state) -> bounded (snd state) ->
  Forall (fun word => all_in (other_than " ") word = true) words ->
  Forall bounded
    (fst (fold_left (add_word max_chunk_length) words state))
  /\ bounded (snd (fold_left (add_word max_chunk_length) words state)).
Proof.
  induction words as [|word words IH]; intros state Hfinal Hcurrent Hwords;
    cbn [fold_left]; [now split|].
  inversion Hwords as [|? ? Hword Hrest]; subst.
  destruct (add_word_bounded state word Hfinal Hcurrent Hword) as [H1 H2].
  now apply IH.
Qed.

Lemma split_words (sentence : string) :
  Forall (fun word => all_in (other_than " ") word = true) (split sentence " ").
Proof.
  apply Forall_forall. intros word Hin.
  now apply (split_from_pieces " " sentence EmptyString word).
Qed.

Lemma add_sentence_bounded (state : list string * string) (sentence : string) :
  Forall bounded (fst state) -> bounded (snd state) ->
  Forall bounded (fst (add_sentence max_chunk_length state sentence))
  /\ bounded (snd (add_sentence max_chunk_length state sentence)).
Proof.
  destruct state as [finalChunks currentChunk]. cbn [fst snd].
  intros Hfinal Hcurrent. unfold add_sentence.
  destruct (fits (currentChunk +++ sentence) max_chunk_length) eqn:Hfits;
    cbn [fst snd]; [split; [exact Hfinal | now left]|].
  destruct (fits sentence max_chunk_length) eqn:Hsentence; cbn [negb].
  - cbn [fst snd]. split; [now apply push_current_bounded | now left].
  - apply add_words_bounded; cbn [fst snd];
      [now apply push_current_bounded | now right | apply split_words].
Qed.

Lemma add_sentences_bounded (sentences : list string) :
  forall state,
  Forall bounded (fst state) -> bounded (snd state) ->
  Forall bounded
    (fst (fold_left (add_sentence max_chunk_length) sentences state))
  /\ bounded
       (snd (fold_left (add_sentence max_chunk_length) sentences state)).
Proof.
  induction sentences as [|sentence sentences IH]; intros state Hfinal Hcurrent;
    cbn [fold_left]; [now split|].
  destruct (add_sentence_bounded state sentence Hfinal Hcurrent) as [H1 H2].
  now apply IH.
Qed.

Lemma add_chunk_bounded (finalChunks : list string) (chunk : string) :
  Forall bounded finalChunks ->
  Forall bounded (add_chunk max_chunk_length finalChunks chunk).
Proof.
  intros Hfinal. unfold add_chunk.
  destruct (fits chunk max_chunk_length) eqn:Hfits.
  - apply Forall_app. split; [exact Hfinal|].
    constructor; [now left | constructor].
  - pose proof (add_sentences_bounded (sentences_of chunk)
                  (finalChunks, EmptyString) Hfinal
                  (or_intror eq_refl)) as [H1 H2].
    destruct (fold_left _ _ _) as [finalChunks' currentChunk].
    now apply push_current_bounded.
Qed.

Lemma add_chunks_bounded (chunks : list string) :
  forall finalChunks,
  Forall bounded finalChunks ->
  Forall bounded (fold_left (add_chunk max_chunk_length) chunks finalChunks).
Proof.
  induction chunks as [|chunk chunks IH]; intros finalChunks Hfinal;
    cbn [fold_left]; [exact Hfinal|].
  now apply IH, add_chunk_bounded.
Qed.

Lemma add_chunks_that_fit (chunks : list string) :
  forall finalChunks,
  forallb (fun chunk => fits chunk max_chunk_length) chunks = true ->
  fold_left (add_chunk max_chunk_length) chunks finalChunks
  = finalChunks ++ chunks.
Proof.
  induction chunks as [|chunk chunks IH]; intros finalChunks Hfit;
    cbn [fold_left]; [now rewrite app_nil_r|].
  cbn [forallb] in Hfit. apply andb_prop in Hfit as [Hchunk Hfit].
  rewrite (IH _ Hfit). unfold add_chunk. rewrite Hchunk.
  now rewrite <- app_assoc.
Qed.

End Bound.

(** X18: the length bound of [chunkPDF].  Every chunk returned is at most
    [max_chunk_length] characters long or holds no space at all: the bound is
    exceeded only by a single word that is itself too long.  A text whose
    paragraphs (the pieces between blank lines, trimmed, the empty ones
    dropped) all fit comes back as these paragraphs. *)
Theorem chunkPDF_bound (text : string) (max_chunk_length : Z) :
  Forall (fun chunk =>
            (Z.of_nat (String.length chunk) <= max_chunk_length)%Z
            \/ all_in (other_than " ") chunk = true)
    (chunkPDF text max_chunk_length)
  /\ (forallb (fun chunk => fits chunk max_chunk_length) (initialChunks text)
      = true ->
      chunkPDF text max_chunk_length = initialChunks text).
Proof.
  split.
  - pose proof (add_chunks_bounded max_chunk_length (initialChunks text) []
                  (Forall_nil _)) as H.
    eapply Forall_impl; [|exact H].
    intros chunk [Hfits|Hword]; [left; now apply Z.leb_le | now right].
  - intros Hfit. unfold chunkPDF. now rewrite add_chunks_that_fit.
Qed.

(** Two paragraphs that fit: the second has a single line feed inside,
    which is no separator. *)
Example chunkPDF_of_short_paragraphs :
  chunkPDF ("  One." +++ newline +++ newline +++ newline
            +++ "Two," +++ newline +++ "three. " +++ newline +++ newline) 500
  = [ "One."; "Two," +++ newline +++ "three." ].
Proof. reflexivity. Qed.

(** In a paragraph that is cut into sentences, the text after the last
    mark belongs to no sentence and is lost. *)
Example chunkPDF_drops_unfinished_sentence :
  chunkPDF "Hello there. General Kenobi" 12 = [ "Hello there." ].
Proof. reflexivity. Qed.

(** A word longer than the bound becomes a chunk of its own, and a word
    that is whitespace only (here a tab between two spaces) an empty
    chunk. *)
Example chunkPDF_of_long_and_blank_words :
  chunkPDF ("ab " +++ String "009" " cd. incomprehensibilities.") 3
  = [ "ab"; EmptyString; "cd."; "incomprehensibilities." ].
Proof. reflexivity. Qed.

End ChunkingFacts.

Section IndexingFacts.
Import VectorStore Prompts Query Indexing.
Variable extractEntities : nat -> result (list (string * result (list float))).
Variable extractRDFTriples : nat -> result (list (string * string * string)).

Lemma index_entities_graph (entities : list (string * result (list float)))
    (i : nat) :
  forall (vectorStore : t) (added : list N3.Quad)
         (vectorStore' : t) (added' : list N3.Quad) (outcome : result unit),
  index_entities vectorStore entities i added
    = (vectorStore', added', outcome) ->
  (exists more,
     added' = added ++ more
     /\ Forall (fun q => N3.graph q = chunk_graph i) more)
  /\ (forall text1, contains vectorStore text1 = true ->
                    contains vectorStore' text1 = true).
Proof.
  induction entities as [|[entity embedding] entities IH];
    intros vectorStore added vectorStore' added' outcome; cbn [index_entities].
  - intros [= <- <- <-]. split; [|auto]. exists []. now rewrite app_nil_r.
  - pose proof (contains_index_entity vectorStore entity embedding i) as Hkeep.
    destruct embedding as [embedding0|error].
    + pose proof (index_entity_quad vectorStore entity embedding0 i) as Hquad.
      destruct (index_entity vectorStore entity (Return embedding0) i)
        as [vectorStore1 [[synQuad|]|error]]; cbn [fst snd] in Hkeep, Hquad.
      * intros H. apply IH in H as [(more & -> & Hmore) Hkept]. split.
        -- exists (synQuad :: more). rewrite <- app_assoc. split; [reflexivity|].
           constructor; [|exact Hmore]. now apply (Hquad synQuad eq_refl).
        -- auto.
      * intros H. apply IH in H as [Hmore Hkept]. split; [exact Hmore|auto].
      * intros [= <- <- <-]. split; [|exact Hkeep].
        exists []. now rewrite app_nil_r.
    + cbn [index_entity]. intros [= <- <- <-]. split; [|auto].
      exists []. now rewrite app_nil_r.
Qed.

(** What the loop of [indexPDF] keeps true of its state: the texts stored
    at the start are stored, and every quad added is in the graph of a chunk
    index below the bound. *)
Lemma index_chunk_keeps (vectorStore0 : t) (bound : nat)
    (state : t * list N3.Quad) (i : nat) :
  i < bound ->
  (forall text1, contains vectorStore0 text1 = true ->
                 contains (fst state) text1 = true) ->
  Forall (fun q => exists j, j < bound /\ N3.graph q = chunk_graph j) (snd state) ->
  (forall text1, contains vectorStore0 text1 = true ->
                 contains (fst (index_chunk extractEntities extractRDFTriples state i))
                   text1 = true)
  /\ Forall (fun q => exists j, j < bound /\ N3.graph q = chunk_graph j)
       (snd (index_chunk extractEntities extractRDFTriples state i)).
Proof.
  destruct state as [vectorStore added]. cbn [fst snd].
  intros Hi Hkept Hadded. unfold index_chunk.
  destruct (extractEntities i) as [chunkEntities|error]; [|now split].
  destruct (index_entities vectorStore chunkEntities i added)
    as [[vectorStore' added'] outcome] eqn:Hentities.
  apply index_entities_graph in Hentities as [(more & -> & Hmore) Hkept'].
  assert (Hadded' : Forall (fun q => exists j, j < bound /\ N3.graph q = chunk_graph j)
                      (added ++ more)).
  { apply Forall_app. split; [exact Hadded|].
    eapply Forall_impl; [|exact Hmore]. intros q Hq. now exists i. }
  destruct outcome as [[]|error]; [|split; cbn [fst snd]; auto].
  destruct (extractRDFTriples i) as [triples|error]; cbn [fst snd];
    [|split; auto].
  split; [auto|]. apply Forall_app. split; [exact Hadded'|].
  apply Forall_forall. intros q Hq. apply in_map_iff in Hq as (triple & <- & _).
  now exists i.
Qed.

Lemma index_chunks_keep (vectorStore0 : t) (bound : nat) (indices : list nat) :
  forall state : t * list N3.Quad,
  Forall (fun i => i < bound) indices ->
  (forall text1, contains vectorStore0 text1 = true ->
                 contains (fst state) text1 = true) ->
  Forall (fun q => exists j, j < bound /\ N3.graph q = chunk_graph j) (snd state) ->
  (forall text1,
     contains vectorStore0 text1 = true ->
     contains (fst (fold_left (index_chunk extractEntities extractRDFTriples)
                      indices state)) text1 = true)
  /\ Forall (fun q => exists j, j < bound /\ N3.graph q = chunk_graph j)
       (snd (fold_left (index_chunk extractEntities extractRDFTriples)
               indices state)).
Proof.
  induction indices as [|i indices IH]; intros state Hbound Hkept Hadded;
    cbn [fold_left]; [now split|].
  inversion Hbound as [|? ? Hi Hrest]; subst.
  destruct (index_chunk_keeps vectorStore0 bound state i Hi Hkept Hadded)
    as [Hkept' Hadded'].
  now apply IH.
Qed.

(** A quad in the graph of chunk [i] is handed to the answer stage as
    chunk [i]. *)
Lemma chunk_graph_read_back (q : N3.Quad) (i : nat) (chunks : list string) :
  N3.graph q = chunk_graph i ->
  qaInput chunks [toGraphNode q]
  = [ {| qa_chunk := nth_error chunks i; index := Some (Z.of_nat i) |} ].
Proof.
  intros Hgraph.
  assert (Hsplit : chunk_index (toGraphNode q)
                   = Some (NilZero.string_of_uint (Nat.to_uint i))).
  { unfold chunk_index, toGraphNode, split. cbn [chunk]. rewrite Hgraph.
    unfold chunk_graph. cbn [String.append split_from].
    change (Ascii.eqb "c" "_") with false. change (Ascii.eqb "h" "_") with false.
    change (Ascii.eqb "u" "_") with false. change (Ascii.eqb "n" "_") with false.
    change (Ascii.eqb "k" "_") with false. change (Ascii.eqb "_" "_") with true.
    cbv iota. cbn [String.append nth_error].
    unfold NilZero.string_of_uint.
    destruct (Nat.to_uint i) eqn:Hd; try reflexivity;
      rewrite <- Hd at 1; rewrite split_from_digits; rewrite Hd; reflexivity. }
  unfold qaInput, chunkIndices. cbn [map]. rewrite Hsplit. unfold parseInt.
  rewrite parseInt_decimal, DecimalNat.Unsigned.of_to.
  unfold index_array.
  destruct (Z.of_nat i <? 0)%Z eqn:Hneg; [apply Z.ltb_lt in Hneg; lia|].
  now rewrite Nat2Z.id.
Qed.

Lemma index_chunks_without_entities (indices : list nat) :
  forall state : t * list N3.Quad,
  Forall (fun i => exists error, extractEntities i = Throw error) indices ->
  fold_left (index_chunk extractEntities extractRDFTriples) indices state = state.
Proof.
  induction indices as [|i indices IH]; intros state Hfail; cbn [fold_left];
    [reflexivity|].
  inversion Hfail as [|? ? [error Hi] Hrest]; subst.
  assert (Hstep : index_chunk extractEntities extractRDFTriples state i = state).
  { unfold index_chunk. destruct state as [vectorStore added]. now rewrite Hi. }
  rewrite Hstep. now apply IH.
Qed.

(** X19: what [indexPDF] does to the stores.  Whatever the oracles answer
    or throw, [indexPDF] returns [true], every text stored before is still
    stored, and every quad it adds is in the graph [chunk_i] of a chunk index
    [i] below the number of chunks indexed.  With the default [max_chunks]
    each quad added is therefore handed to the answer stage as an existing
    chunk of the document, under its index.  When every [extractEntities]
    fails, the errors are swallowed and nothing is stored or added. *)
Theorem indexPDF_effects (chunks : list string) (max_chunks : Z)
    (vectorStore : t) :
  fst (indexPDF extractEntities extractRDFTriples chunks max_chunks vectorStore)
    = true
  /\ (forall text1,
        contains vectorStore text1 = true ->
        contains
          (fst (snd (indexPDF extractEntities extractRDFTriples chunks
                       max_chunks vectorStore))) text1 = true)
  /\ Forall (fun q =>
               exists i, (Z.of_nat i < chunks_to_index chunks max_chunks)%Z
                         /\ N3.graph q = chunk_graph i)
       (snd (snd (indexPDF extractEntities extractRDFTriples chunks
                    max_chunks vectorStore)))
  /\ (max_chunks = (-1)%Z ->
      Forall (fun q =>
                exists i chunk0,
                  nth_error chunks i = Some chunk0
                  /\ qaInput chunks [toGraphNode q]
                     = [ qa (chunk0, Some (Z.of_nat i)) ])
        (snd (snd (indexPDF extractEntities extractRDFTriples chunks
                     max_chunks vectorStore))))
  /\ ((forall i, exists error, extractEntities i = Throw error) ->
      snd (indexPDF extractEntities extractRDFTriples chunks max_chunks
             vectorStore)
      = (vectorStore, [])).
Proof.
  unfold indexPDF. cbn [fst snd].
  set (bound := Z.to_nat (chunks_to_index chunks max_chunks)).
  assert (Hindices : Forall (fun i => i < bound) (seq 0 bound)).
  { apply Forall_forall. intros i Hi. apply in_seq in Hi. lia. }
  destruct (index_chunks_keep vectorStore bound (seq 0 bound) (vectorStore, [])
              Hindices (fun _ H => H) (Forall_nil _)) as [Hkept Hadded].
  split; [reflexivity|]. split; [exact Hkept|]. split; [|split].
  - eapply Forall_impl; [|exact Hadded]. intros q (j & Hj & Hq).
    exists j. split; [unfold bound in Hj; lia | exact Hq].
  - intros Hdefault. eapply Forall_impl; [|exact Hadded].
    intros q (j & Hj & Hq).
    assert (Hlen : j < List.length chunks).
    { unfold bound, chunks_to_index in Hj. rewrite Hdefault in Hj.
      cbn in Hj. lia. }
    destruct (nth_error chunks j) as [chunk0|] eqn:Hnth;
      [|apply nth_error_None in Hnth; lia].
    exists j, chunk0. split; [exact Hnth|].
    rewrite (chunk_graph_read_back q j chunks Hq), Hnth. reflexivity.
  - intros Hfail. apply index_chunks_without_entities.
    apply Forall_forall. intros i _. apply Hfail.
Qed.

End IndexingFacts.
